(** * msquic_winkernel.h: address helpers and status codes

    A shallow embedding of [src/inc/msquic_winkernel.h] (Windows kernel
    mode): the [QUIC_ADDR] helpers and the [QUIC_STATUS] classification
    macros.

    [QUIC_ADDR] is the platform's [SOCKADDR_INET], a union of [SOCKADDR_IN],
    [SOCKADDR_IN6] and the bare family tag.  The helpers read one view of
    the union on objects written through another one, so an address is
    modelled as what the C code sees: the 28 bytes of the object a pointer
    designates, with every field read or written at its offset.  Integers
    are [Z] with their wrap-around written out. *)

From Stdlib Require Import ZArith List Bool Lia.
From Stdlib Require Import Strings.Byte.
Import ListNotations.
Local Open Scope Z_scope.

(* ================================================================= *)
(** ** Fixed-width integers *)

Definition uint8_t  (z : Z) : Z := z mod 2 ^ 8.
Definition uint16_t (z : Z) : Z := z mod 2 ^ 16.
Definition uint32_t (z : Z) : Z := z mod 2 ^ 32.

(** The numeric value of a byte of memory, and the byte a store of an
    integer leaves there (its low eight bits). *)
Definition byte_val (b : byte) : Z := Z.of_N (Byte.to_N b).

Definition byte_of (z : Z) : byte :=
  match Byte.of_N (Z.to_N (z mod 256)) with
  | Some b => b
  | None => x00
  end.

(* ================================================================= *)
(** ** Status codes *)

Module Status.

(** Modelled from the spec: [NTSTATUS] and [NT_SUCCESS] come from the host's
    headers, which are not part of the repository.  A status is a 32-bit
    signed integer following the host's convention; the cast [(NTSTATUS)x]
    reinterprets the 32-bit pattern [x] as signed. *)
Definition NTSTATUS (x : Z) : Z := (x + 2 ^ 31) mod 2 ^ 32 - 2 ^ 31.

(** Modelled from the spec: the host's success test [NT_SUCCESS], the
    sign-bit convention: a status is a success when, as a signed 32-bit
    integer, it is not negative. *)
Definition NT_SUCCESS (Status : Z) : bool := 0 <=? NTSTATUS Status.

(** Modelled from the spec: the host's native status values the mapping
    refers to ([ntstatus.h], absent from the repository).  The
    specification names the concepts only; the numerals are the ones the
    host publishes, written as 32-bit patterns cast to [NTSTATUS]. *)
Definition STATUS_SUCCESS                 : Z := NTSTATUS 0x00000000.
Definition STATUS_PENDING                 : Z := NTSTATUS 0x00000103.
Definition STATUS_REPARSE                 : Z := NTSTATUS 0x00000104.
Definition STATUS_NO_MEMORY               : Z := NTSTATUS 0xC0000017.
Definition STATUS_INVALID_PARAMETER       : Z := NTSTATUS 0xC000000D.
Definition STATUS_INVALID_DEVICE_STATE    : Z := NTSTATUS 0xC0000184.
Definition STATUS_NOT_SUPPORTED           : Z := NTSTATUS 0xC00000BB.
Definition STATUS_NOT_FOUND               : Z := NTSTATUS 0xC0000225.
Definition STATUS_BUFFER_TOO_SMALL        : Z := NTSTATUS 0xC0000023.
Definition STATUS_CANCELLED               : Z := NTSTATUS 0xC0000120.
Definition STATUS_ADDRESS_ALREADY_EXISTS  : Z := NTSTATUS 0xC000020A.
Definition STATUS_CONNECTION_DISCONNECTED : Z := NTSTATUS 0xC000020C.
Definition STATUS_CONNECTION_ABORTED      : Z := NTSTATUS 0xC0000241.
Definition STATUS_HOST_UNREACHABLE        : Z := NTSTATUS 0xC000023D.
Definition STATUS_INTERNAL_ERROR          : Z := NTSTATUS 0xC00000E5.
Definition STATUS_CONNECTION_REFUSED      : Z := NTSTATUS 0xC0000236.
Definition STATUS_CONNECTION_INVALID      : Z := NTSTATUS 0xC000023A.

(** The three status values the header itself defines. *)
Definition STATUS_QUIC_HANDSHAKE_FAILURE : Z := NTSTATUS 0xC0240000.
Definition STATUS_QUIC_VER_NEG_FAILURE   : Z := NTSTATUS 0xC0240001.
Definition STATUS_QUIC_USER_CANCELED     : Z := NTSTATUS 0xC0240002.

Definition QUIC_FAILED (X : Z) : bool := negb (NT_SUCCESS X).
Definition QUIC_SUCCEEDED (X : Z) : bool := NT_SUCCESS X.

Definition QUIC_STATUS_SUCCESS            := STATUS_SUCCESS.
Definition QUIC_STATUS_PENDING            := STATUS_PENDING.
Definition QUIC_STATUS_CONTINUE           := STATUS_REPARSE.
Definition QUIC_STATUS_OUT_OF_MEMORY      := STATUS_NO_MEMORY.
Definition QUIC_STATUS_INVALID_PARAMETER  := STATUS_INVALID_PARAMETER.
Definition QUIC_STATUS_INVALID_STATE      := STATUS_INVALID_DEVICE_STATE.
Definition QUIC_STATUS_NOT_SUPPORTED      := STATUS_NOT_SUPPORTED.
Definition QUIC_STATUS_NOT_FOUND          := STATUS_NOT_FOUND.
Definition QUIC_STATUS_BUFFER_TOO_SMALL   := STATUS_BUFFER_TOO_SMALL.
Definition QUIC_STATUS_HANDSHAKE_FAILURE  := STATUS_QUIC_HANDSHAKE_FAILURE.
Definition QUIC_STATUS_ABORTED            := STATUS_CANCELLED.
Definition QUIC_STATUS_ADDRESS_IN_USE     := STATUS_ADDRESS_ALREADY_EXISTS.
Definition QUIC_STATUS_CONNECTION_TIMEOUT := STATUS_CONNECTION_DISCONNECTED.
Definition QUIC_STATUS_CONNECTION_IDLE    := STATUS_CONNECTION_ABORTED.
Definition QUIC_STATUS_UNREACHABLE        := STATUS_HOST_UNREACHABLE.
Definition QUIC_STATUS_INTERNAL_ERROR     := STATUS_INTERNAL_ERROR.
Definition QUIC_STATUS_SERVER_BUSY        := STATUS_CONNECTION_REFUSED.
Definition QUIC_STATUS_PROTOCOL_ERROR     := STATUS_CONNECTION_INVALID.
Definition QUIC_STATUS_VER_NEG_ERROR      := STATUS_QUIC_VER_NEG_FAILURE.
Definition QUIC_STATUS_USER_CANCELED      := STATUS_QUIC_USER_CANCELED.

(** The nineteen mapped values other than [QUIC_STATUS_SUCCESS], in the
    order the header lists them. *)
Definition other_statuses : list Z :=
  [ QUIC_STATUS_PENDING; QUIC_STATUS_CONTINUE; QUIC_STATUS_OUT_OF_MEMORY;
    QUIC_STATUS_INVALID_PARAMETER; QUIC_STATUS_INVALID_STATE;
    QUIC_STATUS_NOT_SUPPORTED; QUIC_STATUS_NOT_FOUND;
    QUIC_STATUS_BUFFER_TOO_SMALL; QUIC_STATUS_HANDSHAKE_FAILURE;
    QUIC_STATUS_ABORTED; QUIC_STATUS_ADDRESS_IN_USE;
    QUIC_STATUS_CONNECTION_TIMEOUT; QUIC_STATUS_CONNECTION_IDLE;
    QUIC_STATUS_UNREACHABLE; QUIC_STATUS_INTERNAL_ERROR;
    QUIC_STATUS_SERVER_BUSY; QUIC_STATUS_PROTOCOL_ERROR;
    QUIC_STATUS_VER_NEG_ERROR; QUIC_STATUS_USER_CANCELED ].

(** The mapped values that are not failures under the host's convention,
    and the seventeen that are. *)
Definition success_class : list Z :=
  [ QUIC_STATUS_SUCCESS; QUIC_STATUS_PENDING; QUIC_STATUS_CONTINUE ].

Definition failure_class : list Z :=
  [ QUIC_STATUS_OUT_OF_MEMORY;
    QUIC_STATUS_INVALID_PARAMETER; QUIC_STATUS_INVALID_STATE;
    QUIC_STATUS_NOT_SUPPORTED; QUIC_STATUS_NOT_FOUND;
    QUIC_STATUS_BUFFER_TOO_SMALL; QUIC_STATUS_HANDSHAKE_FAILURE;
    QUIC_STATUS_ABORTED; QUIC_STATUS_ADDRESS_IN_USE;
    QUIC_STATUS_CONNECTION_TIMEOUT; QUIC_STATUS_CONNECTION_IDLE;
    QUIC_STATUS_UNREACHABLE; QUIC_STATUS_INTERNAL_ERROR;
    QUIC_STATUS_SERVER_BUSY; QUIC_STATUS_PROTOCOL_ERROR;
    QUIC_STATUS_VER_NEG_ERROR; QUIC_STATUS_USER_CANCELED ].

End Status.

(* ================================================================= *)
(** ** Byte order *)

(** [QuicNetByteSwapShort(x)], the definition the header spells out (its
    [#else] branch; where the platform provides [RtlUshortByteSwap] the
    macro forwards to that intrinsic, which has the same contract). *)
Definition QuicNetByteSwapShort (x : Z) : Z :=
  uint16_t (Z.lor (Z.shiftl (Z.land x 0x00ff) 8)
                  (Z.shiftr (Z.land x 0xff00) 8)).

(* ================================================================= *)
(** ** The object behind a [QUIC_ADDR *] *)

(** The platform's socket-address layout ([ws2def.h], [ws2ipdef.h]): byte
    offsets inside the 28-byte [SOCKADDR_INET] union.

<<
      offset   SOCKADDR_IN (Ipv4)      SOCKADDR_IN6 (Ipv6)
      0..1     sin_family              sin6_family          (si_family)
      2..3     sin_port                sin6_port
      4..7     sin_addr                sin6_flowinfo
      8..15    sin_zero                sin6_addr[0..7]
      16..23                           sin6_addr[8..15]
      24..27                           sin6_scope_id
>> *)
Module Layout.
Definition sizeof_QUIC_ADDR   : nat := 28.
Definition si_family          : nat := 0.
Definition Ipv4_sin_port      : nat := 2.
Definition Ipv4_sin_addr      : nat := 4.
Definition Ipv6_sin6_port     : nat := 2.
Definition Ipv6_sin6_addr     : nat := 8.
Definition Ipv6_sin6_scope_id : nat := 24.
Definition sizeof_IN_ADDR     : nat := 4.
Definition sizeof_IN6_ADDR    : nat := 16.
(** [S_un.S_un_b.s_b1] .. [s_b4] inside an [IN_ADDR]. *)
Definition s_b1 : nat := 0.
Definition s_b2 : nat := 1.
Definition s_b3 : nat := 2.
Definition s_b4 : nat := 3.
End Layout.

(** The platform's address families ([ws2def.h]). *)
Definition AF_UNSPEC : Z := 0.
Definition AF_INET   : Z := 2.
Definition AF_INET6  : Z := 23.

Definition QUIC_ADDR_V4_PORT_OFFSET := Layout.Ipv4_sin_port.
Definition QUIC_ADDR_V4_IP_OFFSET   := Layout.Ipv4_sin_addr.
Definition QUIC_ADDR_V6_PORT_OFFSET := Layout.Ipv6_sin6_port.
Definition QUIC_ADDR_V6_IP_OFFSET   := Layout.Ipv6_sin6_addr.

(** The bytes of one object. *)
Definition image := list byte.

Definition peek (m : image) (off : nat) : byte := nth off m x00.

Definition bytes_at (m : image) (off n : nat) : list byte :=
  map (peek m) (seq off n).

Fixpoint poke (m : image) (off : nat) (v : byte) : image :=
  match m, off with
  | [], _ => []
  | _ :: r, O => v :: r
  | b :: r, S k => b :: poke r k v
  end.

(** Multi-byte scalars are little-endian, as on every Windows target. *)
Fixpoint le_decode (bs : list byte) : Z :=
  match bs with
  | [] => 0
  | b :: r => byte_val b + 256 * le_decode r
  end.

Fixpoint le_encode (n : nat) (z : Z) : list byte :=
  match n with
  | O => []
  | S k => byte_of z :: le_encode k (z / 256)
  end.

Fixpoint poke_bytes (m : image) (off : nat) (bs : list byte) : image :=
  match bs with
  | [] => m
  | b :: r => poke_bytes (poke m off b) (S off) r
  end.

(** The fields of the union, as views of an image. *)
Definition si_family_of (m : image) : Z :=
  le_decode (bytes_at m Layout.si_family 2).
Definition sin_port_of (m : image) : Z :=
  le_decode (bytes_at m Layout.Ipv4_sin_port 2).
Definition sin_addr_of (m : image) : list byte :=
  bytes_at m Layout.Ipv4_sin_addr Layout.sizeof_IN_ADDR.
Definition sin6_addr_of (m : image) : list byte :=
  bytes_at m Layout.Ipv6_sin6_addr Layout.sizeof_IN6_ADDR.
Definition sin6_scope_id_of (m : image) : Z :=
  le_decode (bytes_at m Layout.Ipv6_sin6_scope_id 4).

Definition is_QUIC_ADDR (m : image) : Prop :=
  length m = Layout.sizeof_QUIC_ADDR.

(* ================================================================= *)
(** ** Memory accesses *)

(** Pointers name objects; the store gives each object's bytes.  Two
    pointer arguments may name the same object. *)
Definition ptr := nat.
Definition store := ptr -> image.

Definition set_object (s : store) (p : ptr) (m : image) : store :=
  fun q => if Nat.eqb q p then m else s q.

(** What a run touched: [len] bytes from offset [off] of object [p]. *)
Inductive event : Type :=
| Rd (p : ptr) (off len : nat)
| Wr (p : ptr) (off len : nat).

(** A computation returns a value, the store it leaves and the accesses it
    made, in order. *)
Definition M (A : Type) : Type := store -> A * store * list event.

Definition ret {A} (x : A) : M A := fun s => (x, s, []).

Definition bind {A B} (m : M A) (f : A -> M B) : M B :=
  fun s =>
    let '(x, s1, t1) := m s in
    let '(y, s2, t2) := f x s1 in
    (y, s2, t1 ++ t2).

Notation "x <- m ;; k" := (bind m (fun x => k))
  (at level 61, m at next level, right associativity).
Notation "m ;;; k" := (bind m (fun _ => k))
  (at level 61, right associativity).

Definition result {A} (r : A * store * list event) : A := fst (fst r).
Definition final {A} (r : A * store * list event) : store := snd (fst r).
Definition trace {A} (r : A * store * list event) : list event := snd r.

Definition load_u8 (p : ptr) (off : nat) : M Z :=
  fun s => (byte_val (peek (s p) off), s, [Rd p off 1]).

Definition load_u16 (p : ptr) (off : nat) : M Z :=
  fun s => (le_decode (bytes_at (s p) off 2), s, [Rd p off 2]).

Definition load_u32 (p : ptr) (off : nat) : M Z :=
  fun s => (le_decode (bytes_at (s p) off 4), s, [Rd p off 4]).

(** A range handed to [memcmp], which may read all of it. *)
Definition load_bytes (p : ptr) (off n : nat) : M (list byte) :=
  fun s => (bytes_at (s p) off n, s, [Rd p off n]).

Definition store_u8 (p : ptr) (off : nat) (v : Z) : M unit :=
  fun s => (tt, set_object s p (poke (s p) off (byte_of v)), [Wr p off 1]).

Definition store_u16 (p : ptr) (off : nat) (v : Z) : M unit :=
  fun s => (tt, set_object s p (poke_bytes (s p) off (le_encode 2 v)),
            [Wr p off 2]).

(** The C library's [memcmp] on two ranges of equal length: the sign of the
    first difference, bytes compared as unsigned. *)
Fixpoint memcmp (x y : list byte) : Z :=
  match x, y with
  | a :: x', b :: y' =>
      if byte_val a <? byte_val b then -1
      else if byte_val b <? byte_val a then 1
      else memcmp x' y'
  | _, _ => 0
  end.

(* ================================================================= *)
(** ** IP address abstraction helpers *)

Definition QuicAddrIsValid (Addr : ptr) : M bool :=
  f <- load_u16 Addr Layout.si_family ;;
  if f =? AF_UNSPEC then ret true else
  f <- load_u16 Addr Layout.si_family ;;
  if f =? AF_INET then ret true else
  f <- load_u16 Addr Layout.si_family ;;
  ret (f =? AF_INET6).

Definition QuicAddrCompareIp (Addr1 Addr2 : ptr) : M bool :=
  f <- load_u16 Addr1 Layout.si_family ;;
  if f =? AF_INET then
    x <- load_bytes Addr1 Layout.Ipv4_sin_addr Layout.sizeof_IN_ADDR ;;
    y <- load_bytes Addr2 Layout.Ipv4_sin_addr Layout.sizeof_IN_ADDR ;;
    ret (memcmp x y =? 0)
  else
    x <- load_bytes Addr1 Layout.Ipv6_sin6_addr Layout.sizeof_IN6_ADDR ;;
    y <- load_bytes Addr2 Layout.Ipv6_sin6_addr Layout.sizeof_IN6_ADDR ;;
    ret (memcmp x y =? 0).

(** The condition is a C [||]: its right operand is evaluated only when the
    left one is false. *)
Definition QuicAddrCompare (Addr1 Addr2 : ptr) : M bool :=
  f1 <- load_u16 Addr1 Layout.si_family ;;
  f2 <- load_u16 Addr2 Layout.si_family ;;
  if negb (f1 =? f2) then ret false else
  p1 <- load_u16 Addr1 Layout.Ipv4_sin_port ;;
  p2 <- load_u16 Addr2 Layout.Ipv4_sin_port ;;
  if negb (p1 =? p2) then ret false else
  QuicAddrCompareIp Addr1 Addr2.

(** [ZeroAddr = {0}] is a local of the function, not part of the store. *)
Definition QuicAddrIsWildCard (Addr : ptr) : M bool :=
  f <- load_u16 Addr Layout.si_family ;;
  if f =? AF_UNSPEC then ret true else
  f <- load_u16 Addr Layout.si_family ;;
  if f =? AF_INET then
    let ZeroAddr := repeat x00 Layout.sizeof_IN_ADDR in
    x <- load_bytes Addr Layout.Ipv4_sin_addr Layout.sizeof_IN_ADDR ;;
    ret (memcmp x ZeroAddr =? 0)
  else
    let ZeroAddr := repeat x00 Layout.sizeof_IN6_ADDR in
    x <- load_bytes Addr Layout.Ipv6_sin6_addr Layout.sizeof_IN6_ADDR ;;
    ret (memcmp x ZeroAddr =? 0).

Definition QuicAddrGetFamily (Addr : ptr) : M Z :=
  f <- load_u16 Addr Layout.si_family ;;
  ret (uint16_t f).

Definition QuicAddrSetFamily (Addr : ptr) (Family : Z) : M unit :=
  store_u16 Addr Layout.si_family Family.

(** The swap macro mentions its argument twice; both mentions read the
    same field with no write in between, so one load stands for them. *)
Definition QuicAddrGetPort (Addr : ptr) : M Z :=
  p <- load_u16 Addr Layout.Ipv4_sin_port ;;
  ret (QuicNetByteSwapShort p).

Definition QuicAddrSetPort (Addr : ptr) (Port : Z) : M unit :=
  store_u16 Addr Layout.Ipv4_sin_port (QuicNetByteSwapShort Port).

Definition QuicAddrIsBoundExplicitly (Addr : ptr) : M bool :=
  sc <- load_u32 Addr Layout.Ipv6_sin6_scope_id ;;
  ret (sc =? 0).

Definition QuicAddrSetToLoopback (Addr : ptr) : M unit :=
  f <- load_u16 Addr Layout.si_family ;;
  if f =? AF_INET then
    store_u8 Addr (Layout.Ipv4_sin_addr + Layout.s_b1) 127 ;;;
    store_u8 Addr (Layout.Ipv4_sin_addr + Layout.s_b4) 1
  else
    store_u8 Addr (Layout.Ipv6_sin6_addr + 15) 1.

(** [UPDATE_HASH(byte)]: [Hash = ((Hash << 5) - Hash) + (byte)] on
    [uint32_t], every operation wrapping at 32 bits. *)
Definition UPDATE_HASH (Hash byte : Z) : Z :=
  uint32_t (uint32_t (uint32_t (Z.shiftl Hash 5) - Hash) + byte).

(** [for (uint8_t i = 0; i < n; ++i) Hash = body(i, Hash)], for the two
    bounds the header uses (4 and 16: [i] never wraps). *)
Fixpoint for_loop (idx : list nat) (body : nat -> Z -> M Z) (Hash : Z)
  : M Z :=
  match idx with
  | [] => ret Hash
  | i :: rest => h <- body i Hash ;; for_loop rest body h
  end.

Definition QuicAddrHash (Addr : ptr) : M Z :=
  let Hash := 5387 in
  f <- load_u16 Addr Layout.si_family ;;
  if f =? AF_INET then
    p <- load_u16 Addr Layout.Ipv4_sin_port ;;
    let Hash := UPDATE_HASH Hash (Z.land p 0xFF) in
    p <- load_u16 Addr Layout.Ipv4_sin_port ;;
    let Hash := UPDATE_HASH Hash (Z.shiftr p 8) in
    for_loop (seq 0 Layout.sizeof_IN_ADDR)
      (fun i Hash =>
         b <- load_u8 Addr (Layout.Ipv4_sin_addr + i) ;;
         ret (UPDATE_HASH Hash b))
      Hash
  else
    p <- load_u16 Addr Layout.Ipv6_sin6_port ;;
    let Hash := UPDATE_HASH Hash (Z.land p 0xFF) in
    p <- load_u16 Addr Layout.Ipv6_sin6_port ;;
    let Hash := UPDATE_HASH Hash (Z.shiftr p 8) in
    for_loop (seq 0 Layout.sizeof_IN6_ADDR)
      (fun i Hash =>
         b <- load_u8 Addr (Layout.Ipv6_sin6_addr + i) ;;
         ret (UPDATE_HASH Hash b))
      Hash.

Definition QUIC_LOCALHOST_FOR_AF (Af : Z) : list byte :=
  [ "l"; "o"; "c"; "a"; "l"; "h"; "o"; "s"; "t" ]%byte.

(* ================================================================= *)
(** ** Concrete objects used in examples *)

(** An image from its byte values. *)
Definition image_of (bs : list Z) : image := map byte_of bs.

(** 192.168.1.1 port 443 as an [AF_INET] address (port 443 = 0x01BB in
    network order), the remaining bytes zero. *)
Definition addr_v4_example : image :=
  image_of ([2; 0; 1; 187; 192; 168; 1; 1] ++ repeat 0 20).

(** The same endpoint with port 8443 (0x20FB). *)
Definition addr_v4_example_8443 : image :=
  image_of ([2; 0; 32; 251; 192; 168; 1; 1] ++ repeat 0 20).

(** An [AF_INET6] address fe80::1 with scope id 7, port 443. *)
Definition addr_v6_example : image :=
  image_of ([23; 0; 1; 187; 0; 0; 0; 0;
             254; 128; 0; 0; 0; 0; 0; 0; 0; 0; 0; 0; 0; 0; 0; 1;
             7; 0; 0; 0]).

(** A zero-filled object whose family tag is 99, none of the three
    families [QuicAddrIsValid] accepts. *)
Definition addr_family99_zero : image :=
  image_of ([99; 0] ++ repeat 0 26).

(** [addr_v4_example] again, built elsewhere: the bytes after the IPv4
    address ([sin_zero] and beyond) hold other values. *)
Definition addr_v4_example_dirty : image :=
  image_of ([2; 0; 1; 187; 192; 168; 1; 1] ++ repeat 0xAA 16 ++ [5; 0; 0; 0]).

(** The IPv4 and IPv6 wildcard addresses, port 443. *)
Definition addr_v4_any : image :=
  image_of ([2; 0; 1; 187] ++ repeat 0 24).

Definition addr_v6_any : image :=
  image_of ([23; 0; 1; 187] ++ repeat 0 24).

(** A store whose objects 0 to 6 are the examples above. *)
Definition example_store : store :=
  fun p =>
    match p with
    | 0%nat => addr_v4_example
    | 1%nat => addr_v4_example_8443
    | 2%nat => addr_v6_example
    | 3%nat => addr_family99_zero
    | 4%nat => addr_v4_example_dirty
    | 5%nat => addr_v4_any
    | _ => addr_v6_any
    end.

(* ================================================================= *)
(** ** Vocabulary of the specification *)

(** The address payload the family tag selects: the IPv4 address when the
    family is [AF_INET], the IPv6 address otherwise. *)
Definition family_payload (m : image) : list byte :=
  if si_family_of m =? AF_INET then sin_addr_of m else sin6_addr_of m.

(** The reference hash, as the specification words it: seed 5387, then the
    low byte of the raw port, its high byte, and each payload byte, each
    folded in by [h = h * 31 + byte] modulo 2^32. *)
Definition hash_step (h byte : Z) : Z := (h * 31 + byte) mod 2 ^ 32.

Definition Hash_reference (m : image) : Z :=
  let port := sin_port_of m in
  fold_left hash_step
    ([port mod 256; port / 256] ++ map byte_val (family_payload m))
    5387.

(** The exchange of the two bytes of a 16-bit word. *)
Definition exchange_bytes (x : Z) : Z := 256 * (x mod 256) + x / 256.

(** Byte [i] of object [p] lies in the range an access covers. *)
Definition touches (e : event) (p : ptr) (i : nat) : Prop :=
  match e with
  | Rd q off len | Wr q off len => q = p /\ (off <= i < off + len)%nat
  end.

Definition is_read (e : event) : Prop :=
  match e with Rd _ _ _ => True | Wr _ _ _ => False end.

(** Offsets of the address payloads: the IPv4 address and the IPv6 one. *)
Definition in_sin_addr (i : nat) : Prop :=
  (Layout.Ipv4_sin_addr <= i < Layout.Ipv4_sin_addr + Layout.sizeof_IN_ADDR)%nat.
Definition in_sin6_addr (i : nat) : Prop :=
  (Layout.Ipv6_sin6_addr <= i < Layout.Ipv6_sin6_addr + Layout.sizeof_IN6_ADDR)%nat.
Definition in_payload (i : nat) : Prop := in_sin_addr i \/ in_sin6_addr i.

(** The canonical loopback addresses and the all-zero ones. *)
Definition loopback_v4 : list byte := image_of [127; 0; 0; 1].
Definition loopback_v6 : list byte := image_of (repeat 0 15 ++ [1]).
Definition zero_v4 : list byte := repeat x00 4.
Definition zero_v6 : list byte := repeat x00 16.

(** The wildcard condition with its third case as the specification has
    it (family IPv6), and as the code has it (any remaining family). *)
Definition wildcard_claimed (m : image) : Prop :=
  si_family_of m = AF_UNSPEC
  \/ (si_family_of m = AF_INET /\ sin_addr_of m = zero_v4)
  \/ (si_family_of m = AF_INET6 /\ sin6_addr_of m = zero_v6).

Definition wildcard_cond (m : image) : Prop :=
  si_family_of m = AF_UNSPEC
  \/ (si_family_of m = AF_INET /\ sin_addr_of m = zero_v4)
  \/ (si_family_of m <> AF_UNSPEC /\ si_family_of m <> AF_INET
      /\ sin6_addr_of m = zero_v6).

(* ================================================================= *)
(** ** Vocabulary of the further properties *)

(** What [QuicAddrCompare] and [QuicAddrHash] look at: the family tag, the
    raw port and the payload the family selects. *)
Definition addr_key (m : image) : Z * Z * list byte :=
  (si_family_of m, sin_port_of m, family_payload m).

(** The three families [QuicAddrIsValid] accepts. *)
Definition valid_family (f : Z) : Prop :=
  f = AF_UNSPEC \/ f = AF_INET \/ f = AF_INET6.

(** An access stays inside the 28 bytes of a [QUIC_ADDR]. *)
Definition in_bounds (e : event) : Prop :=
  match e with
  | Rd _ off len | Wr _ off len => (off + len <= Layout.sizeof_QUIC_ADDR)%nat
  end.

(** An access is to object [p] or to object [q]. *)
Definition on_objects (p q : ptr) (e : event) : Prop :=
  match e with
  | Rd r _ _ | Wr r _ _ => r = p \/ r = q
  end.

(** A run that only reads, inside the objects [p] and [q], with at most
    nineteen accesses, and hands the store back as it got it. *)
Definition reads_only {A} (p q : ptr) (s : store)
  (r : A * store * list event) : Prop :=
  final r = s
  /\ Forall (fun e => is_read e /\ in_bounds e /\ on_objects p q e) (trace r)
  /\ (length (trace r) <= 19)%nat.

(** A run whose accesses all fall inside object [p] and that keeps the size
    of every object. *)
Definition writes_inside {A} (p : ptr) (s : store)
  (r : A * store * list event) : Prop :=
  Forall (fun e => in_bounds e /\ on_objects p p e) (trace r)
  /\ (forall q, length (final r q) = length (s q))
  /\ (forall q, q <> p -> final r q = s q).

(** fe80::1 port 443 again, with another flow info and scope id 9. *)
Definition addr_v6_example_scope9 : image :=
  image_of ([23; 0; 1; 187; 1; 2; 3; 4;
             254; 128; 0; 0; 0; 0; 0; 0; 0; 0; 0; 0; 0; 0; 0; 1;
             9; 0; 0; 0]).

(** The bytes of [addr_v6_example] under the family tag [AF_UNSPEC]. *)
Definition addr_unspec_fe80 : image :=
  image_of ([0; 0; 1; 187; 0; 0; 0; 0;
             254; 128; 0; 0; 0; 0; 0; 0; 0; 0; 0; 0; 0; 0; 0; 1;
             7; 0; 0; 0]).

(** A second store: IPv6 objects 0 to 2, IPv4 objects 3 and above. *)
Definition example_store_v6 : store :=
  fun p =>
    match p with
    | 0%nat => addr_v6_example
    | 1%nat => addr_v6_example_scope9
    | 2%nat => addr_unspec_fe80
    | 3%nat => addr_v4_example
    | _ => addr_v4_example_dirty
    end.

(* ================================================================= *)
(** * Properties *)

(** ** Bytes *)

Lemma byte_val_range (b : byte) : 0 <= byte_val b < 256.
Proof.
  unfold byte_val. pose proof (Byte.to_N_bounded b) as H.
  split; [apply N2Z.is_nonneg|].
  apply N2Z.inj_le in H. change (Z.of_N 255) with 255 in H. lia.
Qed.

Lemma byte_of_val (b : byte) : byte_of (byte_val b) = b.
Proof.
  unfold byte_of. rewrite Z.mod_small by apply byte_val_range.
  unfold byte_val. rewrite N2Z.id, Byte.of_to_N. reflexivity.
Qed.

Lemma byte_val_of (z : Z) : byte_val (byte_of z) = z mod 256.
Proof.
  assert (Hr : 0 <= z mod 256 < 256) by (apply Z.mod_pos_bound; lia).
  unfold byte_of, byte_val.
  pose proof (Byte.to_of_N_option_map (Z.to_N (z mod 256))) as H.
  destruct (Byte.of_N (Z.to_N (z mod 256))) as [b|]; cbn in H.
  - destruct (N.leb_spec (Z.to_N (z mod 256)) 255) as [_|Hgt].
    + injection H as ->. apply Z2N.id. lia.
    + discriminate.
  - destruct (N.leb_spec (Z.to_N (z mod 256)) 255) as [_|Hgt];
      [discriminate|]. lia.
Qed.

Lemma byte_val_inj (a b : byte) : byte_val a = byte_val b -> a = b.
Proof.
  intros H. rewrite <- (byte_of_val a), <- (byte_of_val b), H. reflexivity.
Qed.

Lemma byte_val_zero_iff (b : byte) : byte_val b = 0 <-> b = x00.
Proof.
  split; [|intros ->; reflexivity].
  intros H. apply byte_val_inj. rewrite H. reflexivity.
Qed.

(** ** [memcmp] *)

Lemma memcmp_refl (x : list byte) : memcmp x x = 0.
Proof.
  induction x as [|a x IH]; cbn; [reflexivity|].
  rewrite Z.ltb_irrefl. exact IH.
Qed.

Lemma memcmp_zero_eq (x y : list byte) :
  length x = length y -> memcmp x y = 0 -> x = y.
Proof.
  revert y. induction x as [|a x IH]; intros [|b y] Hlen H;
    try discriminate; [reflexivity|].
  cbn in H.
  destruct (Z.ltb_spec (byte_val a) (byte_val b)); [discriminate|].
  destruct (Z.ltb_spec (byte_val b) (byte_val a)); [discriminate|].
  assert (a = b) by (apply byte_val_inj; lia). subst b.
  f_equal. apply IH; [now injection Hlen|exact H].
Qed.

Lemma memcmp_eqb_iff (x y : list byte) :
  length x = length y -> ((memcmp x y =? 0) = true <-> x = y).
Proof.
  intros Hlen. rewrite Z.eqb_eq. split.
  - now apply memcmp_zero_eq.
  - intros ->. apply memcmp_refl.
Qed.

Lemma length_bytes_at (m : image) (off n : nat) : length (bytes_at m off n) = n.
Proof. unfold bytes_at. now rewrite length_map, length_seq. Qed.

(** ** Arithmetic of the hash step and of the byte swap *)

Lemma UPDATE_HASH_mul31 (h b : Z) : UPDATE_HASH h b = hash_step h b.
Proof.
  unfold UPDATE_HASH, hash_step, uint32_t.
  rewrite Z.shiftl_mul_pow2 by lia.
  rewrite Zminus_mod_idemp_l, Zplus_mod_idemp_l.
  f_equal. change (2 ^ 5) with 32. lia.
Qed.

Lemma land_255 (p : Z) : Z.land p 0xFF = p mod 256.
Proof. change 0xFF with (Z.ones 8). now rewrite Z.land_ones by lia. Qed.

Lemma shiftr_8 (p : Z) : Z.shiftr p 8 = p / 256.
Proof. now rewrite Z.shiftr_div_pow2 by lia. Qed.

Lemma testbit_above (x n k : Z) :
  0 <= x < 2 ^ k -> k <= n -> Z.testbit x n = false.
Proof.
  intros Hx Hn.
  destruct (Z.eq_dec x 0) as [->|Hne]; [apply Z.bits_0|].
  apply Z.bits_above_log2; [lia|].
  apply Z.lt_le_trans with k; [|lia].
  apply Z.log2_lt_pow2; lia.
Qed.

Lemma lor_shiftl8 (a b : Z) :
  0 <= b < 256 -> Z.lor (Z.shiftl a 8) b = 256 * a + b.
Proof.
  intros Hb.
  pose proof (Z.add_lor_land (Z.shiftl a 8) b) as H.
  assert (H0 : Z.land (Z.shiftl a 8) b = 0).
  { apply Z.bits_inj'. intros n Hn.
    rewrite Z.land_spec, Z.bits_0.
    destruct (Z.ltb_spec n 8) as [Hlt|Hge].
    - rewrite Z.shiftl_spec_low by lia. reflexivity.
    - rewrite (testbit_above b n 8) by (change (2 ^ 8) with 256; lia).
      apply andb_false_r. }
  rewrite H0, Z.add_0_r in H. rewrite H.
  rewrite Z.shiftl_mul_pow2 by lia. change (2 ^ 8) with 256. lia.
Qed.

Lemma land_ff00 (x : Z) : 0 <= x < 2 ^ 16 -> Z.land x 0xff00 = 256 * (x / 256).
Proof.
  intros Hx. apply Z.bits_inj'. intros n Hn.
  rewrite Z.land_spec.
  replace (256 * (x / 256)) with (Z.shiftl (Z.shiftr x 8) 8)
    by (rewrite Z.shiftl_mul_pow2, Z.shiftr_div_pow2 by lia;
        change (2 ^ 8) with 256; lia).
  change 0xff00 with (Z.shiftl (Z.ones 8) 8).
  destruct (Z.ltb_spec n 8) as [Hlt|Hge].
  - rewrite !Z.shiftl_spec_low by lia. apply andb_false_r.
  - rewrite !Z.shiftl_spec by lia. rewrite Z.shiftr_spec by lia.
    replace (n - 8 + 8) with n by lia.
    destruct (Z.ltb_spec n 16) as [Hlt|Hge16].
    + rewrite Z.ones_spec_low by lia. apply andb_true_r.
    + rewrite (testbit_above x n 16) by lia. reflexivity.
Qed.

Lemma QuicNetByteSwapShort_exchange (x : Z) :
  0 <= x < 2 ^ 16 -> QuicNetByteSwapShort x = exchange_bytes x.
Proof.
  intros Hx. unfold QuicNetByteSwapShort, exchange_bytes, uint16_t.
  rewrite land_255, land_ff00 by exact Hx.
  rewrite (Z.shiftr_div_pow2 _ 8) by lia. change (2 ^ 8) with 256.
  replace (256 * (x / 256) / 256) with (x / 256)
    by (rewrite Z.mul_comm, Z.div_mul; lia).
  assert (Hl : 0 <= x mod 256 < 256) by (apply Z.mod_pos_bound; lia).
  assert (Hh : 0 <= x / 256 < 256).
  { split; [apply Z.div_pos; lia|apply Z.div_lt_upper_bound; lia]. }
  rewrite lor_shiftl8 by exact Hh.
  apply Z.mod_small. change (2 ^ 16) with 65536. lia.
Qed.

Lemma exchange_bytes_range (x : Z) :
  0 <= x < 2 ^ 16 -> 0 <= exchange_bytes x < 2 ^ 16.
Proof.
  intros Hx. unfold exchange_bytes.
  assert (Hl : 0 <= x mod 256 < 256) by (apply Z.mod_pos_bound; lia).
  assert (Hh : 0 <= x / 256 < 256).
  { split; [apply Z.div_pos; lia|apply Z.div_lt_upper_bound; lia]. }
  change (2 ^ 16) with 65536. lia.
Qed.

Lemma exchange_bytes_low_high (x : Z) :
  0 <= x < 2 ^ 16 ->
  exchange_bytes x mod 256 = x / 256 /\ exchange_bytes x / 256 = x mod 256.
Proof.
  intros Hx. unfold exchange_bytes.
  assert (Hl : 0 <= x mod 256 < 256) by (apply Z.mod_pos_bound; lia).
  assert (Hh : 0 <= x / 256 < 256).
  { split; [apply Z.div_pos; lia|apply Z.div_lt_upper_bound; lia]. }
  split.
  - rewrite Z.add_comm, Z.mul_comm, Z.mod_add by lia. now apply Z.mod_small.
  - rewrite Z.add_comm, Z.mul_comm, Z.div_add by lia.
    rewrite (Z.div_small (x / 256)) by lia. lia.
Qed.

Lemma exchange_bytes_involutive (x : Z) :
  0 <= x < 2 ^ 16 -> exchange_bytes (exchange_bytes x) = x.
Proof.
  intros Hx. destruct (exchange_bytes_low_high x Hx) as [Hlo Hhi].
  unfold exchange_bytes at 1. rewrite Hlo, Hhi.
  pose proof (Z.div_mod x 256). lia.
Qed.

(** ** Reading and writing an image *)

Lemma length_poke (m : image) (off : nat) (v : byte) :
  length (poke m off v) = length m.
Proof.
  revert off. induction m as [|b m IH]; intros [|k]; cbn; auto.
Qed.

Lemma peek_poke_eq (m : image) (off : nat) (v : byte) :
  (off < length m)%nat -> peek (poke m off v) off = v.
Proof.
  unfold peek. revert off.
  induction m as [|b m IH]; intros [|k] H; cbn in *; try lia; auto.
  apply IH. lia.
Qed.

Lemma peek_poke_ne (m : image) (off i : nat) (v : byte) :
  i <> off -> peek (poke m off v) i = peek m i.
Proof.
  unfold peek. revert off i.
  induction m as [|b m IH]; intros [|k] [|j] H; cbn; auto; try lia.
Qed.

Lemma bytes_at_ext (m m' : image) (off n : nat) :
  (forall i, (off <= i < off + n)%nat -> peek m i = peek m' i) ->
  bytes_at m off n = bytes_at m' off n.
Proof.
  intros H. unfold bytes_at. apply map_ext_in.
  intros i Hi. apply in_seq in Hi. apply H. lia.
Qed.

Lemma bytes_at_poke_outside (m : image) (k : nat) (v : byte) (off n : nat) :
  ~ (off <= k < off + n)%nat ->
  bytes_at (poke m k v) off n = bytes_at m off n.
Proof.
  intros H. apply bytes_at_ext. intros i Hi.
  apply peek_poke_ne. lia.
Qed.

Lemma set_object_same (s : store) (p : ptr) (m : image) :
  set_object s p m p = m.
Proof. unfold set_object. now rewrite Nat.eqb_refl. Qed.

Lemma set_object_other (s : store) (p q : ptr) (m : image) :
  q <> p -> set_object s p m q = s q.
Proof.
  intros H. unfold set_object.
  destruct (Nat.eqb_spec q p); [contradiction|reflexivity].
Qed.

Lemma le_decode_2 (a b : byte) :
  le_decode [a; b] = byte_val a + 256 * byte_val b.
Proof. cbn [le_decode]. lia. Qed.

Lemma u16_after_store (m : image) (off : nat) (v : Z) :
  (S off < length m)%nat ->
  le_decode (bytes_at (poke_bytes m off (le_encode 2 v)) off 2) = uint16_t v.
Proof.
  intros Hlen. cbn [le_encode poke_bytes]. unfold bytes_at.
  cbn [seq map]. rewrite le_decode_2.
  rewrite (peek_poke_ne _ (S off) off) by lia.
  rewrite peek_poke_eq by lia.
  rewrite peek_poke_eq by (rewrite length_poke; lia).
  rewrite !byte_val_of. unfold uint16_t.
  change (2 ^ 16) with (256 * 256).
  rewrite Z.rem_mul_r by lia. reflexivity.
Qed.

(** ** What each helper computes *)

Ltac run_M :=
  cbv [bind ret load_u8 load_u16 load_u32 load_bytes store_u8 store_u16];
  cbn [fst snd app].

Lemma QuicAddrCompareIp_run (a b : ptr) (s : store) :
  QuicAddrCompareIp a b s =
  if si_family_of (s a) =? AF_INET
  then (memcmp (sin_addr_of (s a)) (sin_addr_of (s b)) =? 0, s,
        [Rd a 0 2; Rd a 4 4; Rd b 4 4])
  else (memcmp (sin6_addr_of (s a)) (sin6_addr_of (s b)) =? 0, s,
        [Rd a 0 2; Rd a 8 16; Rd b 8 16]).
Proof.
  unfold QuicAddrCompareIp, si_family_of. run_M.
  destruct (_ =? AF_INET); reflexivity.
Qed.

Lemma QuicAddrCompare_run (a b : ptr) (s : store) :
  QuicAddrCompare a b s =
  if negb (si_family_of (s a) =? si_family_of (s b))
  then (false, s, [Rd a 0 2; Rd b 0 2])
  else if negb (sin_port_of (s a) =? sin_port_of (s b))
  then (false, s, [Rd a 0 2; Rd b 0 2; Rd a 2 2; Rd b 2 2])
  else (result (QuicAddrCompareIp a b s), s,
        [Rd a 0 2; Rd b 0 2; Rd a 2 2; Rd b 2 2]
          ++ trace (QuicAddrCompareIp a b s)).
Proof.
  unfold QuicAddrCompare. run_M.
  fold (si_family_of (s a)) (si_family_of (s b)).
  destruct (negb (si_family_of (s a) =? si_family_of (s b)));
    [reflexivity|].
  fold (sin_port_of (s a)) (sin_port_of (s b)).
  destruct (negb (sin_port_of (s a) =? sin_port_of (s b)));
    [reflexivity|].
  rewrite QuicAddrCompareIp_run.
  destruct (si_family_of (s a) =? AF_INET); reflexivity.
Qed.

Lemma for_loop_load (a : ptr) (base n i : nat) (h : Z) (s : store) :
  for_loop (seq i n)
    (fun i Hash => b <- load_u8 a (base + i) ;; ret (UPDATE_HASH Hash b))
    h s
  = (fold_left UPDATE_HASH (map byte_val (bytes_at (s a) (base + i) n)) h,
     s,
     map (fun k => Rd a (base + k) 1) (seq i n)).
Proof.
  revert i h. induction n as [|n IH]; intros i h.
  - reflexivity.
  - cbn [seq for_loop]. unfold bind at 1.
    unfold bind at 1, load_u8 at 1, ret at 1. cbn [fst snd app].
    rewrite IH. unfold bytes_at. cbn [seq map fold_left app].
    rewrite Nat.add_succ_r. reflexivity.
Qed.

Lemma for_loop_load0 (a : ptr) (base n : nat) (h : Z) (s : store) :
  for_loop (seq 0 n)
    (fun i Hash => b <- load_u8 a (base + i) ;; ret (UPDATE_HASH Hash b))
    h s
  = (fold_left UPDATE_HASH (map byte_val (bytes_at (s a) base n)) h,
     s,
     map (fun k => Rd a (base + k) 1) (seq 0 n)).
Proof. rewrite for_loop_load, Nat.add_0_r. reflexivity. Qed.

Lemma QuicAddrHash_run (a : ptr) (s : store) :
  QuicAddrHash a s =
  (fold_left UPDATE_HASH
     ([Z.land (sin_port_of (s a)) 0xFF; Z.shiftr (sin_port_of (s a)) 8]
        ++ map byte_val (family_payload (s a)))
     5387,
   s,
   [Rd a 0 2; Rd a 2 2; Rd a 2 2]
     ++ (if si_family_of (s a) =? AF_INET
         then map (fun k => Rd a (4 + k) 1) (seq 0 4)
         else map (fun k => Rd a (8 + k) 1) (seq 0 16))).
Proof.
  unfold QuicAddrHash, family_payload.
  unfold bind at 1, load_u16 at 1. cbn [fst snd].
  fold (si_family_of (s a)).
  destruct (si_family_of (s a) =? AF_INET).
  - pose proof (for_loop_load0 a Layout.Ipv4_sin_addr Layout.sizeof_IN_ADDR)
      as L.
    unfold bind, load_u16, load_u8, ret in L |- *. rewrite L.
    rewrite fold_left_app. reflexivity.
  - pose proof (for_loop_load0 a Layout.Ipv6_sin6_addr Layout.sizeof_IN6_ADDR)
      as L.
    unfold bind, load_u16, load_u8, ret in L |- *. rewrite L.
    rewrite fold_left_app. reflexivity.
Qed.

Lemma fold_left_UPDATE_HASH (l : list Z) (h : Z) :
  fold_left UPDATE_HASH l h = fold_left hash_step l h.
Proof.
  revert h. induction l as [|b l IH]; intros h; cbn [fold_left];
    [reflexivity|].
  rewrite UPDATE_HASH_mul31. apply IH.
Qed.

Lemma QuicAddrHash_result (a : ptr) (s : store) :
  result (QuicAddrHash a s) = Hash_reference (s a).
Proof.
  rewrite QuicAddrHash_run. unfold result, Hash_reference. cbn [fst].
  rewrite fold_left_UPDATE_HASH, land_255, shiftr_8. reflexivity.
Qed.

Lemma QuicAddrCompare_true (a b : ptr) (s : store) :
  result (QuicAddrCompare a b s) = true ->
  si_family_of (s a) = si_family_of (s b)
  /\ sin_port_of (s a) = sin_port_of (s b)
  /\ family_payload (s a) = family_payload (s b).
Proof.
  rewrite QuicAddrCompare_run.
  destruct (Z.eqb_spec (si_family_of (s a)) (si_family_of (s b)))
    as [Hf|Hf]; cbn [negb]; [|discriminate].
  destruct (Z.eqb_spec (sin_port_of (s a)) (sin_port_of (s b)))
    as [Hp|Hp]; cbn [negb]; [|discriminate].
  unfold result at 1. cbn [fst]. rewrite QuicAddrCompareIp_run.
  unfold family_payload. rewrite <- Hf.
  destruct (si_family_of (s a) =? AF_INET); unfold result; cbn [fst];
    intros H; repeat split; auto;
    apply memcmp_eqb_iff in H; auto;
    unfold sin_addr_of, sin6_addr_of; now rewrite !length_bytes_at.
Qed.

Lemma QuicAddrHash_depends (a b : ptr) (s : store) :
  sin_port_of (s a) = sin_port_of (s b) ->
  family_payload (s a) = family_payload (s b) ->
  result (QuicAddrHash a s) = result (QuicAddrHash b s).
Proof.
  intros Hp Hpl. rewrite !QuicAddrHash_result. unfold Hash_reference.
  rewrite Hp, Hpl. reflexivity.
Qed.

Lemma QuicAddrCompare_final (a b : ptr) (s : store) :
  final (QuicAddrCompare a b s) = s.
Proof.
  rewrite QuicAddrCompare_run.
  destruct (negb _); [reflexivity|]. destruct (negb _); reflexivity.
Qed.

Lemma QuicAddrCompareIp_result (a b : ptr) (s : store) :
  result (QuicAddrCompareIp a b s) = true
  <-> family_payload (s a)
      = (if si_family_of (s a) =? AF_INET
         then sin_addr_of (s b) else sin6_addr_of (s b)).
Proof.
  rewrite QuicAddrCompareIp_run. unfold family_payload.
  destruct (si_family_of (s a) =? AF_INET); unfold result; cbn [fst];
    apply memcmp_eqb_iff; unfold sin_addr_of, sin6_addr_of;
    now rewrite !length_bytes_at.
Qed.

Lemma QuicAddrGetPort_run (a : ptr) (s : store) :
  QuicAddrGetPort a s
  = (QuicNetByteSwapShort (sin_port_of (s a)), s, [Rd a 2 2]).
Proof. reflexivity. Qed.

Lemma QuicAddrSetPort_run (a : ptr) (p : Z) (s : store) :
  QuicAddrSetPort a p s
  = (tt,
     set_object s a
       (poke_bytes (s a) Layout.Ipv4_sin_port
          (le_encode 2 (QuicNetByteSwapShort p))),
     [Wr a 2 2]).
Proof. reflexivity. Qed.

Lemma QuicNetByteSwapShort_u16 (x : Z) :
  uint16_t (QuicNetByteSwapShort x) = QuicNetByteSwapShort x.
Proof.
  unfold QuicNetByteSwapShort, uint16_t. apply Z.mod_mod. discriminate.
Qed.

Lemma sin_port_after_SetPort (a : ptr) (p : Z) (s : store) :
  is_QUIC_ADDR (s a) ->
  sin_port_of (final (QuicAddrSetPort a p s) a) = QuicNetByteSwapShort p.
Proof.
  intros Hwf. rewrite QuicAddrSetPort_run. unfold final. cbn [fst snd].
  rewrite set_object_same. unfold sin_port_of.
  rewrite u16_after_store.
  - apply QuicNetByteSwapShort_u16.
  - unfold is_QUIC_ADDR, Layout.sizeof_QUIC_ADDR in Hwf.
    unfold Layout.Ipv4_sin_port. lia.
Qed.

Lemma QuicAddrIsBoundExplicitly_run (a : ptr) (s : store) :
  QuicAddrIsBoundExplicitly a s
  = (sin6_scope_id_of (s a) =? 0, s, [Rd a 24 4]).
Proof. reflexivity. Qed.

Lemma le_decode_nonneg (bs : list byte) : 0 <= le_decode bs.
Proof.
  induction bs as [|b bs IH]; cbn [le_decode]; [lia|].
  pose proof (byte_val_range b). lia.
Qed.

Lemma le_decode_zero_iff (bs : list byte) :
  le_decode bs = 0 <-> bs = repeat x00 (length bs).
Proof.
  induction bs as [|b bs IH]; cbn [le_decode length repeat].
  - tauto.
  - pose proof (byte_val_range b). pose proof (le_decode_nonneg bs).
    split.
    + intros H1. assert (Hb : byte_val b = 0) by lia.
      assert (Hr : le_decode bs = 0) by lia.
      apply byte_val_zero_iff in Hb. apply IH in Hr.
      rewrite Hb. f_equal. exact Hr.
    + intros H1. injection H1 as Hb Hr.
      apply IH in Hr. rewrite Hb, Hr. reflexivity.
Qed.

Lemma QuicAddrIsValid_run (a : ptr) (s : store) :
  result (QuicAddrIsValid a s)
  = (si_family_of (s a) =? AF_UNSPEC)
    || (si_family_of (s a) =? AF_INET)
    || (si_family_of (s a) =? AF_INET6).
Proof.
  unfold QuicAddrIsValid, si_family_of. run_M.
  destruct (_ =? AF_UNSPEC); [reflexivity|].
  destruct (_ =? AF_INET); reflexivity.
Qed.

Lemma QuicAddrIsWildCard_run (a : ptr) (s : store) :
  QuicAddrIsWildCard a s =
  if si_family_of (s a) =? AF_UNSPEC then (true, s, [Rd a 0 2])
  else if si_family_of (s a) =? AF_INET
  then (memcmp (sin_addr_of (s a)) zero_v4 =? 0, s,
        [Rd a 0 2; Rd a 0 2; Rd a 4 4])
  else (memcmp (sin6_addr_of (s a)) zero_v6 =? 0, s,
        [Rd a 0 2; Rd a 0 2; Rd a 8 16]).
Proof.
  unfold QuicAddrIsWildCard, si_family_of. run_M.
  destruct (_ =? AF_UNSPEC); [reflexivity|].
  destruct (_ =? AF_INET); reflexivity.
Qed.

Lemma QuicAddrIsWildCard_result (a : ptr) (s : store) :
  result (QuicAddrIsWildCard a s) = true <-> wildcard_cond (s a).
Proof.
  rewrite QuicAddrIsWildCard_run. unfold wildcard_cond.
  destruct (Z.eqb_spec (si_family_of (s a)) AF_UNSPEC) as [Hu|Hu].
  - unfold result. cbn [fst]. tauto.
  - destruct (Z.eqb_spec (si_family_of (s a)) AF_INET) as [H4|H4];
      unfold result; cbn [fst]; rewrite memcmp_eqb_iff
        by (unfold sin_addr_of, sin6_addr_of; now rewrite length_bytes_at);
      tauto.
Qed.

Lemma QuicAddrSetToLoopback_run (a : ptr) (s : store) :
  QuicAddrSetToLoopback a s =
  if si_family_of (s a) =? AF_INET
  then (tt,
        set_object (set_object s a (poke (s a) 4 (byte_of 127))) a
          (poke (poke (s a) 4 (byte_of 127)) 7 (byte_of 1)),
        [Rd a 0 2; Wr a 4 1; Wr a 7 1])
  else (tt,
        set_object s a (poke (s a) 23 (byte_of 1)),
        [Rd a 0 2; Wr a 23 1]).
Proof.
  unfold QuicAddrSetToLoopback, si_family_of. run_M.
  destruct (_ =? AF_INET); [|reflexivity].
  rewrite set_object_same.
  reflexivity.
Qed.

(** The object [SetToLoopback] leaves behind its argument, and the other
    objects. *)
Lemma QuicAddrSetToLoopback_object (a : ptr) (s : store) :
  final (QuicAddrSetToLoopback a s) a =
  if si_family_of (s a) =? AF_INET
  then poke (poke (s a) 4 (byte_of 127)) 7 (byte_of 1)
  else poke (s a) 23 (byte_of 1).
Proof.
  rewrite QuicAddrSetToLoopback_run.
  destruct (si_family_of (s a) =? AF_INET); unfold final; cbn [fst snd];
    apply set_object_same.
Qed.

Lemma QuicAddrSetToLoopback_others (a q : ptr) (s : store) :
  q <> a -> final (QuicAddrSetToLoopback a s) q = s q.
Proof.
  intros Hq. rewrite QuicAddrSetToLoopback_run.
  destruct (si_family_of (s a) =? AF_INET); unfold final; cbn [fst snd];
    rewrite ?set_object_other by exact Hq; reflexivity.
Qed.

Lemma bytes_at_snoc (m : image) (off n : nat) :
  bytes_at m off (S n) = bytes_at m off n ++ [peek m (off + n)].
Proof. unfold bytes_at. rewrite seq_S, map_app. reflexivity. Qed.

Lemma sin_addr_after_loopback (m : image) :
  is_QUIC_ADDR m ->
  sin_addr_of (poke (poke m 4 (byte_of 127)) 7 (byte_of 1))
  = [x7f; peek m 5; peek m 6; x01].
Proof.
  unfold is_QUIC_ADDR, Layout.sizeof_QUIC_ADDR. intros Hwf.
  unfold sin_addr_of, bytes_at, Layout.Ipv4_sin_addr, Layout.sizeof_IN_ADDR.
  cbn [seq map].
  rewrite (peek_poke_ne _ 7 4), (peek_poke_ne _ 7 5), (peek_poke_ne _ 7 6)
    by lia.
  rewrite (peek_poke_ne _ 4 5), (peek_poke_ne _ 4 6) by lia.
  rewrite !peek_poke_eq by (rewrite ?length_poke; lia).
  reflexivity.
Qed.

Lemma sin6_addr_after_loopback (m : image) :
  is_QUIC_ADDR m ->
  sin6_addr_of (poke m 23 (byte_of 1)) = bytes_at m 8 15 ++ [x01].
Proof.
  unfold is_QUIC_ADDR, Layout.sizeof_QUIC_ADDR. intros Hwf.
  unfold sin6_addr_of, Layout.Ipv6_sin6_addr, Layout.sizeof_IN6_ADDR.
  rewrite bytes_at_snoc.
  rewrite bytes_at_poke_outside by lia.
  change (8 + 15)%nat with 23%nat.
  rewrite peek_poke_eq by lia. reflexivity.
Qed.

Lemma loopback_object_frame (s : store) (a : ptr) (off n : nat) :
  (off + n <= 4 \/ 24 <= off)%nat ->
  bytes_at (final (QuicAddrSetToLoopback a s) a) off n
  = bytes_at (s a) off n.
Proof.
  intros Hr. rewrite QuicAddrSetToLoopback_object.
  destruct (si_family_of (s a) =? AF_INET);
    rewrite !bytes_at_poke_outside by lia; reflexivity.
Qed.

(** ** Status classification *)

Lemma NTSTATUS_cases (c : Z) :
  (c mod 2 ^ 32 < 2 ^ 31 /\ Status.NTSTATUS c = c mod 2 ^ 32)
  \/ (2 ^ 31 <= c mod 2 ^ 32 /\ Status.NTSTATUS c = c mod 2 ^ 32 - 2 ^ 32).
Proof.
  unfold Status.NTSTATUS. rewrite <- Zplus_mod_idemp_l.
  pose proof (Z.mod_pos_bound c (2 ^ 32) eq_refl) as Hm.
  set (m := c mod 2 ^ 32) in *.
  change (2 ^ 32) with 4294967296 in *. change (2 ^ 31) with 2147483648.
  destruct (Z_lt_le_dec m 2147483648) as [Hlt|Hge]; [left|right]; split;
    try assumption.
  - rewrite Z.mod_small by lia. lia.
  - rewrite <- (Z.mod_unique (m + 2147483648) 4294967296 1 (m - 2147483648));
      lia.
Qed.

Lemma NTSTATUS_range (c : Z) : - 2 ^ 31 <= Status.NTSTATUS c < 2 ^ 31.
Proof.
  pose proof (Z.mod_pos_bound c (2 ^ 32) eq_refl) as Hm.
  destruct (NTSTATUS_cases c) as [[H1 H2]|[H1 H2]]; rewrite H2;
    change (2 ^ 32) with 4294967296 in *;
    change (2 ^ 31) with 2147483648 in *; lia.
Qed.

Lemma NTSTATUS_id (c : Z) : - 2 ^ 31 <= c < 2 ^ 31 -> Status.NTSTATUS c = c.
Proof.
  intros Hc. unfold Status.NTSTATUS.
  change (2 ^ 32) with 4294967296 in *.
  change (2 ^ 31) with 2147483648 in *.
  rewrite Z.mod_small by lia. lia.
Qed.

Lemma testbit_31_mod (c : Z) :
  Z.testbit c 31 = negb (c mod 2 ^ 32 <? 2 ^ 31).
Proof.
  rewrite <- (Z.mod_pow2_bits_low c 32 31) by lia.
  pose proof (Z.mod_pos_bound c (2 ^ 32) eq_refl) as Hm.
  set (m := c mod 2 ^ 32) in *.
  change (2 ^ 32) with 4294967296 in *.
  destruct (Z.ltb_spec m (2 ^ 31)) as [Hlt|Hge]; cbn [negb].
  - apply Z.testbit_false; [lia|].
    rewrite Z.div_small by lia. reflexivity.
  - apply Z.testbit_true; [lia|].
    change (2 ^ 31) with 2147483648 in *.
    replace (m / 2147483648) with 1; [reflexivity|].
    apply Z.div_unique with (m - 2147483648); lia.
Qed.

Lemma NT_SUCCESS_sign_bit (c : Z) :
  Status.NT_SUCCESS c = negb (Z.testbit c 31).
Proof.
  rewrite testbit_31_mod, negb_involutive. unfold Status.NT_SUCCESS.
  pose proof (Z.mod_pos_bound c (2 ^ 32) eq_refl) as Hm.
  destruct (NTSTATUS_cases c) as [[H1 H2]|[H1 H2]]; rewrite H2;
    change (2 ^ 32) with 4294967296 in *;
    change (2 ^ 31) with 2147483648 in *.
  - destruct (Z.leb_spec 0 (c mod 4294967296));
      destruct (Z.ltb_spec (c mod 4294967296) 2147483648); try lia;
      reflexivity.
  - destruct (Z.leb_spec 0 (c mod 4294967296 - 4294967296));
      destruct (Z.ltb_spec (c mod 4294967296) 2147483648); try lia;
      reflexivity.
Qed.

(* ================================================================= *)
(** * The claims *)

(** C1: whenever [QuicAddrCompare] returns true on two addresses,
    [QuicAddrHash] returns the same value on both; and equal family, equal
    raw port bits and equal family-selected address payload together give
    equal hash values. *)
Theorem C1_compare_true_equal_hash (s : store) (a b : ptr) :
  (result (QuicAddrCompare a b s) = true ->
   result (QuicAddrHash a s) = result (QuicAddrHash b s))
  /\ (si_family_of (s a) = si_family_of (s b) ->
      sin_port_of (s a) = sin_port_of (s b) ->
      family_payload (s a) = family_payload (s b) ->
      result (QuicAddrHash a s) = result (QuicAddrHash b s)).
Proof.
  split.
  - intros H. apply QuicAddrCompare_true in H as (_ & Hp & Hpl).
    now apply QuicAddrHash_depends.
  - intros _ Hp Hpl. now apply QuicAddrHash_depends.
Qed.

(** The two independently built 192.168.1.1:443 objects compare equal and
    hash alike, although the bytes after the IPv4 address differ. *)
Lemma C1_witness :
  result (QuicAddrCompare 0%nat 4%nat example_store) = true
  /\ result (QuicAddrHash 0%nat example_store)
     = result (QuicAddrHash 4%nat example_store).
Proof.
  split.
  - vm_compute. reflexivity.
  - apply (proj1 (C1_compare_true_equal_hash example_store 0%nat 4%nat)).
    vm_compute. reflexivity.
Defined.

(** C2: storing a 16-bit host-order port with [QuicAddrSetPort] and reading
    it back with [QuicAddrGetPort] gives the port again: the setter stores
    the byte-swapped value, the getter swaps what is stored, and the swap
    exchanges the two bytes of a 16-bit word. *)
Theorem C2_port_round_trip (s : store) (a : ptr) (p : Z) :
  is_QUIC_ADDR (s a) ->
  0 <= p < 2 ^ 16 ->
  result (QuicAddrGetPort a (final (QuicAddrSetPort a p s))) = p
  /\ sin_port_of (final (QuicAddrSetPort a p s) a) = QuicNetByteSwapShort p
  /\ result (QuicAddrGetPort a s) = QuicNetByteSwapShort (sin_port_of (s a))
  /\ QuicNetByteSwapShort p = 256 * (p mod 256) + p / 256
  /\ QuicNetByteSwapShort (QuicNetByteSwapShort p) = p.
Proof.
  intros Hwf Hp.
  assert (Hinv : QuicNetByteSwapShort (QuicNetByteSwapShort p) = p).
  { rewrite (QuicNetByteSwapShort_exchange p Hp).
    rewrite QuicNetByteSwapShort_exchange
      by (apply exchange_bytes_range; exact Hp).
    apply exchange_bytes_involutive. exact Hp. }
  repeat split.
  - rewrite QuicAddrGetPort_run. unfold result. cbn [fst].
    rewrite sin_port_after_SetPort by exact Hwf. exact Hinv.
  - apply sin_port_after_SetPort. exact Hwf.
  - apply (QuicNetByteSwapShort_exchange p Hp).
  - exact Hinv.
Qed.

(** Port 8443 written over port 443 of 192.168.1.1 and read back. *)
Lemma C2_witness :
  result (QuicAddrGetPort 0%nat
            (final (QuicAddrSetPort 0%nat 8443 example_store))) = 8443.
Proof.
  apply (C2_port_round_trip example_store 0%nat 8443).
  - reflexivity.
  - lia.
Defined.

(** C3 (as the code has it): on an [AF_INET] address [QuicAddrSetToLoopback]
    sets the first IPv4 address byte to 127 and the fourth to 1 and keeps
    the second and third, so the four bytes are 127.0.0.1 exactly when the
    second and third were zero before the call; on an [AF_INET6] address it
    sets the last of the sixteen IPv6 address bytes to 1 and keeps the
    first fifteen, so the bytes are ::1 exactly when the first fifteen were
    zero before the call. *)
Theorem C3_loopback_bytes (s : store) (a : ptr) :
  is_QUIC_ADDR (s a) ->
  (si_family_of (s a) = AF_INET ->
   sin_addr_of (final (QuicAddrSetToLoopback a s) a)
   = [x7f; peek (s a) 5; peek (s a) 6; x01]
   /\ (sin_addr_of (final (QuicAddrSetToLoopback a s) a) = loopback_v4
       <-> peek (s a) 5 = x00 /\ peek (s a) 6 = x00))
  /\ (si_family_of (s a) = AF_INET6 ->
      sin6_addr_of (final (QuicAddrSetToLoopback a s) a)
      = bytes_at (s a) 8 15 ++ [x01]
      /\ (sin6_addr_of (final (QuicAddrSetToLoopback a s) a) = loopback_v6
          <-> bytes_at (s a) 8 15 = repeat x00 15)).
Proof.
  intros Hwf. rewrite QuicAddrSetToLoopback_object. split; intros Hf.
  - rewrite Hf. change (AF_INET =? AF_INET) with true. cbv iota.
    rewrite (sin_addr_after_loopback _ Hwf). split; [reflexivity|].
    change loopback_v4 with [x7f; x00; x00; x01]. split.
    + intros H. injection H as H5 H6. auto.
    + intros [H5 H6]. rewrite H5, H6. reflexivity.
  - rewrite Hf. change (AF_INET6 =? AF_INET) with false. cbv iota.
    rewrite (sin6_addr_after_loopback _ Hwf). split; [reflexivity|].
    change loopback_v6 with (repeat x00 15 ++ [x01]). split.
    + intros H. apply app_inj_tail in H. tauto.
    + intros H. rewrite H. reflexivity.
Qed.

(** On the IPv4 and IPv6 wildcard addresses the call does give 127.0.0.1
    and ::1. *)
Lemma C3_witness :
  sin_addr_of (final (QuicAddrSetToLoopback 5%nat example_store) 5%nat)
  = loopback_v4
  /\ sin6_addr_of (final (QuicAddrSetToLoopback 6%nat example_store) 6%nat)
     = loopback_v6.
Proof.
  split.
  - apply (proj1 (C3_loopback_bytes example_store 5%nat eq_refl) eq_refl).
    split; reflexivity.
  - apply (proj2 (C3_loopback_bytes example_store 6%nat eq_refl) eq_refl).
    reflexivity.
Defined.

(** C3 as stated fails: the [AF_INET] address 192.168.1.1 becomes
    127.168.1.1, not 127.0.0.1, and the [AF_INET6] address fe80::1 stays
    fe80::1, not ::1. *)
Lemma C3_counterexample :
  (si_family_of (example_store 0%nat) = AF_INET
   /\ sin_addr_of (final (QuicAddrSetToLoopback 0%nat example_store) 0%nat)
      = image_of [127; 168; 1; 1]
   /\ sin_addr_of (final (QuicAddrSetToLoopback 0%nat example_store) 0%nat)
      <> loopback_v4)
  /\ (si_family_of (example_store 2%nat) = AF_INET6
      /\ sin6_addr_of (final (QuicAddrSetToLoopback 2%nat example_store) 2%nat)
         = image_of ([254; 128] ++ repeat 0 13 ++ [1])
      /\ sin6_addr_of (final (QuicAddrSetToLoopback 2%nat example_store) 2%nat)
         <> loopback_v6).
Proof.
  repeat split; try (vm_compute; reflexivity);
    intros H; vm_compute in H; discriminate H.
Qed.

(** C4 (as the code has it): of the twenty mapped values, success, pending
    and continue satisfy [QUIC_SUCCEEDED] and not [QUIC_FAILED]; each of
    the other seventeen satisfies [QUIC_FAILED] and not
    [QUIC_SUCCEEDED]. *)
Theorem C4_status_classes :
  Forall (fun c => Status.QUIC_SUCCEEDED c = true
                   /\ Status.QUIC_FAILED c = false)
         Status.success_class
  /\ Forall (fun c => Status.QUIC_FAILED c = true
                      /\ Status.QUIC_SUCCEEDED c = false)
            Status.failure_class
  /\ Status.QUIC_STATUS_SUCCESS :: Status.other_statuses
     = Status.success_class ++ Status.failure_class
  /\ length (Status.success_class ++ Status.failure_class) = 20%nat.
Proof.
  split; [|split; [|split]].
  - repeat constructor.
  - repeat constructor.
  - reflexivity.
  - reflexivity.
Qed.

(** C4 as stated fails: pending and continue are among the nineteen other
    values and are not failures. *)
Lemma C4_counterexample :
  In Status.QUIC_STATUS_PENDING Status.other_statuses
  /\ Status.QUIC_FAILED Status.QUIC_STATUS_PENDING = false
  /\ In Status.QUIC_STATUS_CONTINUE Status.other_statuses
  /\ Status.QUIC_FAILED Status.QUIC_STATUS_CONTINUE = false
  /\ ~ (Status.QUIC_SUCCEEDED Status.QUIC_STATUS_SUCCESS = true
        /\ Status.QUIC_FAILED Status.QUIC_STATUS_SUCCESS = false
        /\ Forall (fun c => Status.QUIC_FAILED c = true)
                  Status.other_statuses).
Proof.
  split; [left; reflexivity|]. split; [reflexivity|].
  split; [right; left; reflexivity|]. split; [reflexivity|].
  intros (_ & _ & H).
  apply Forall_inv in H. vm_compute in H. discriminate H.
Qed.

(** C5: [QuicAddrCompare] returns false when the family tags differ or the
    raw port bits differ, and then no access it made touches an address
    payload byte; otherwise it returns true exactly when the payloads are
    equal byte for byte, the four IPv4 bytes when the first address is
    [AF_INET] and the sixteen IPv6 bytes for any other family.  It leaves
    the store as it was. *)
Theorem C5_compare_stages (s : store) (a b : ptr) :
  final (QuicAddrCompare a b s) = s
  /\ (si_family_of (s a) <> si_family_of (s b)
      \/ sin_port_of (s a) <> sin_port_of (s b) ->
      result (QuicAddrCompare a b s) = false
      /\ forall e p i,
           In e (trace (QuicAddrCompare a b s)) ->
           touches e p i -> ~ in_payload i)
  /\ (si_family_of (s a) = si_family_of (s b) ->
      sin_port_of (s a) = sin_port_of (s b) ->
      (si_family_of (s a) = AF_INET ->
       (result (QuicAddrCompare a b s) = true
        <-> sin_addr_of (s a) = sin_addr_of (s b)))
      /\ (si_family_of (s a) <> AF_INET ->
          (result (QuicAddrCompare a b s) = true
           <-> sin6_addr_of (s a) = sin6_addr_of (s b)))).
Proof.
  split; [apply QuicAddrCompare_final|]. split.
  - intros Hd. rewrite QuicAddrCompare_run.
    assert (Hhead : forall e p i,
               In e [Rd a 0 2; Rd b 0 2; Rd a 2 2; Rd b 2 2] ->
               touches e p i -> ~ in_payload i).
    { intros e p i Hin Ht [H4|H6];
        unfold in_sin_addr, in_sin6_addr, Layout.Ipv4_sin_addr,
          Layout.Ipv6_sin6_addr, Layout.sizeof_IN_ADDR,
          Layout.sizeof_IN6_ADDR in *;
        cbn [In] in Hin;
        repeat (destruct Hin as [<-|Hin]; [cbn [touches] in Ht; lia|]);
        contradiction. }
    destruct (Z.eqb_spec (si_family_of (s a)) (si_family_of (s b)))
      as [Hf|Hf]; cbn [negb].
    + destruct (Z.eqb_spec (sin_port_of (s a)) (sin_port_of (s b)))
        as [Hp|Hp]; cbn [negb].
      * destruct Hd; contradiction.
      * split; [reflexivity|]. exact Hhead.
    + split; [reflexivity|]. intros e p i Hin.
      apply Hhead. cbn [trace snd In] in *. tauto.
  - intros Hf Hp. rewrite QuicAddrCompare_run.
    rewrite Hf, Hp, !Z.eqb_refl. cbn [negb]. rewrite <- Hf.
    unfold result at 1 3. cbn [fst].
    rewrite QuicAddrCompareIp_result. unfold family_payload.
    split; intros Hfam.
    + rewrite Hfam, Z.eqb_refl. reflexivity.
    + destruct (Z.eqb_spec (si_family_of (s a)) AF_INET);
        [contradiction|reflexivity].
Qed.

(** Port 443 against port 8443: false after four header reads only; the
    two 192.168.1.1:443 objects: true, their IPv4 bytes being equal. *)
Lemma C5_witness :
  (result (QuicAddrCompare 0%nat 1%nat example_store) = false
   /\ forall e p i,
        In e (trace (QuicAddrCompare 0%nat 1%nat example_store)) ->
        touches e p i -> ~ in_payload i)
  /\ (result (QuicAddrCompare 0%nat 4%nat example_store) = true
      <-> sin_addr_of (example_store 0%nat) = sin_addr_of (example_store 4%nat)).
Proof.
  split.
  - apply (proj1 (proj2 (C5_compare_stages example_store 0%nat 1%nat))).
    right. vm_compute. discriminate.
  - apply (proj2 (proj2 (C5_compare_stages example_store 0%nat 4%nat)));
      vm_compute; reflexivity.
Defined.

(** C6 (as the code has it): [QuicAddrIsWildCard] returns true exactly when
    the family is [AF_UNSPEC], or the family is [AF_INET] and the four IPv4
    address bytes are zero, or the family is any other value ([AF_INET6]
    included) and the sixteen IPv6 address bytes are zero; it only reads,
    and leaves the store as it was.  On an address [QuicAddrIsValid]
    accepts, the third case is the family [AF_INET6]. *)
Theorem C6_wildcard (s : store) (a : ptr) :
  (result (QuicAddrIsWildCard a s) = true <-> wildcard_cond (s a))
  /\ final (QuicAddrIsWildCard a s) = s
  /\ Forall is_read (trace (QuicAddrIsWildCard a s))
  /\ (result (QuicAddrIsValid a s) = true ->
      (result (QuicAddrIsWildCard a s) = true <-> wildcard_claimed (s a))).
Proof.
  split; [apply QuicAddrIsWildCard_result|]. split; [|split].
  - rewrite QuicAddrIsWildCard_run.
    destruct (_ =? AF_UNSPEC); [reflexivity|].
    destruct (_ =? AF_INET); reflexivity.
  - rewrite QuicAddrIsWildCard_run.
    destruct (_ =? AF_UNSPEC); [|destruct (_ =? AF_INET)];
      cbn [trace snd]; repeat constructor.
  - rewrite QuicAddrIsValid_run, QuicAddrIsWildCard_result.
    unfold wildcard_cond, wildcard_claimed.
    assert (D1 : AF_INET <> AF_INET6) by discriminate.
    assert (D2 : AF_UNSPEC <> AF_INET6) by discriminate.
    destruct (Z.eqb_spec (si_family_of (s a)) AF_UNSPEC) as [Hu|Hu];
      [tauto|].
    destruct (Z.eqb_spec (si_family_of (s a)) AF_INET) as [H4|H4];
      [rewrite H4; tauto|].
    destruct (Z.eqb_spec (si_family_of (s a)) AF_INET6) as [H6|H6];
      cbn [orb]; [tauto|discriminate].
Qed.

(** The IPv6 wildcard address is valid, so the stated three cases decide
    the answer there. *)
Lemma C6_witness :
  result (QuicAddrIsValid 6%nat example_store) = true
  /\ (result (QuicAddrIsWildCard 6%nat example_store) = true
      <-> wildcard_claimed (example_store 6%nat)).
Proof.
  split.
  - vm_compute. reflexivity.
  - apply (proj2 (proj2 (proj2 (C6_wildcard example_store 6%nat)))).
    vm_compute. reflexivity.
Defined.

(** C6 as stated fails on a zero-filled object whose family tag is 99: the
    code answers true, and none of the three stated cases holds. *)
Lemma C6_counterexample :
  si_family_of (example_store 3%nat) = 99
  /\ result (QuicAddrIsWildCard 3%nat example_store) = true
  /\ ~ wildcard_claimed (example_store 3%nat)
  /\ ~ (result (QuicAddrIsWildCard 3%nat example_store) = true
        <-> wildcard_claimed (example_store 3%nat)).
Proof.
  assert (Hn : ~ wildcard_claimed (example_store 3%nat)).
  { intros [Hu|[[H4 _]|[H6 _]]].
    - vm_compute in Hu. discriminate Hu.
    - vm_compute in H4. discriminate H4.
    - vm_compute in H6. discriminate H6. }
  assert (Ht : result (QuicAddrIsWildCard 3%nat example_store) = true)
    by (vm_compute; reflexivity).
  split; [vm_compute; reflexivity|]. split; [exact Ht|].
  split; [exact Hn|]. intros [H _]. exact (Hn (H Ht)).
Qed.

(** C7: [QuicAddrIsBoundExplicitly] returns true exactly when the scope id
    read at offset 24 is zero (its four bytes are zero) and false
    otherwise, for an address of any family; it reads nothing else, so two
    objects whose bytes 24..27 agree get the same answer whatever their
    family, port and address bytes. *)
Theorem C7_bound_explicitly (s : store) (a : ptr) :
  (result (QuicAddrIsBoundExplicitly a s) = true
   <-> sin6_scope_id_of (s a) = 0)
  /\ (result (QuicAddrIsBoundExplicitly a s) = false
      <-> sin6_scope_id_of (s a) <> 0)
  /\ (sin6_scope_id_of (s a) = 0
      <-> bytes_at (s a) Layout.Ipv6_sin6_scope_id 4 = repeat x00 4)
  /\ trace (QuicAddrIsBoundExplicitly a s)
     = [Rd a Layout.Ipv6_sin6_scope_id 4]
  /\ final (QuicAddrIsBoundExplicitly a s) = s
  /\ (forall (s2 : store) (b : ptr),
        bytes_at (s2 b) Layout.Ipv6_sin6_scope_id 4
        = bytes_at (s a) Layout.Ipv6_sin6_scope_id 4 ->
        result (QuicAddrIsBoundExplicitly b s2)
        = result (QuicAddrIsBoundExplicitly a s)).
Proof.
  rewrite QuicAddrIsBoundExplicitly_run. unfold result, final, trace.
  cbn [fst snd].
  split; [apply Z.eqb_eq|]. split; [apply Z.eqb_neq|].
  split; [|split; [reflexivity|split; [reflexivity|]]].
  - unfold sin6_scope_id_of. rewrite le_decode_zero_iff.
    rewrite length_bytes_at. reflexivity.
  - intros s2 b Hb. rewrite QuicAddrIsBoundExplicitly_run. cbn [fst].
    unfold sin6_scope_id_of. rewrite Hb. reflexivity.
Qed.

(** 192.168.1.1:443 ([AF_INET]) and the zero-filled family-99 object have
    the same four bytes at offset 24, hence the same answer. *)
Lemma C7_witness :
  result (QuicAddrIsBoundExplicitly 3%nat example_store)
  = result (QuicAddrIsBoundExplicitly 0%nat example_store).
Proof.
  apply (proj2 (proj2 (proj2 (proj2 (proj2
           (C7_bound_explicitly example_store 0%nat)))))).
  reflexivity.
Defined.

(** C8: [QuicAddrHash] equals the reference computation: from the seed
    5387, fold in the low byte of the raw port, its high byte, then each
    address byte in order (four when the family is [AF_INET], sixteen
    otherwise) by [h = h * 31 + byte] modulo 2^32. *)
Theorem C8_hash_is_reference (s : store) (a : ptr) :
  result (QuicAddrHash a s) = Hash_reference (s a)
  /\ final (QuicAddrHash a s) = s
  /\ forall h byte, UPDATE_HASH h byte = (h * 31 + byte) mod 2 ^ 32.
Proof.
  split; [apply QuicAddrHash_result|]. split.
  - rewrite QuicAddrHash_run. reflexivity.
  - intros h byte. apply UPDATE_HASH_mul31.
Qed.

(** C9: [QuicAddrSetToLoopback] leaves the family tag, the port field and
    the IPv6 scope id as they were; the only bytes of the object that can
    differ afterwards are address payload bytes (of the IPv4 address when
    the family is [AF_INET], of the IPv6 address otherwise), its writes
    fall there, and no other object changes. *)
Theorem C9_loopback_frame (s : store) (a : ptr) :
  si_family_of (final (QuicAddrSetToLoopback a s) a) = si_family_of (s a)
  /\ sin_port_of (final (QuicAddrSetToLoopback a s) a) = sin_port_of (s a)
  /\ sin6_scope_id_of (final (QuicAddrSetToLoopback a s) a)
     = sin6_scope_id_of (s a)
  /\ length (final (QuicAddrSetToLoopback a s) a) = length (s a)
  /\ (forall i,
        peek (final (QuicAddrSetToLoopback a s) a) i <> peek (s a) i ->
        if si_family_of (s a) =? AF_INET
        then in_sin_addr i else in_sin6_addr i)
  /\ (forall e p i,
        In e (trace (QuicAddrSetToLoopback a s)) ->
        ~ is_read e -> touches e p i ->
        p = a /\ if si_family_of (s a) =? AF_INET
                 then in_sin_addr i else in_sin6_addr i)
  /\ (forall q, q <> a -> final (QuicAddrSetToLoopback a s) q = s q).
Proof.
  split; [|split; [|split; [|split; [|split; [|split]]]]].
  - unfold si_family_of, Layout.si_family.
    rewrite loopback_object_frame by lia. reflexivity.
  - unfold sin_port_of, Layout.Ipv4_sin_port.
    rewrite loopback_object_frame by lia. reflexivity.
  - unfold sin6_scope_id_of, Layout.Ipv6_sin6_scope_id.
    rewrite loopback_object_frame by lia. reflexivity.
  - rewrite QuicAddrSetToLoopback_object.
    destruct (si_family_of (s a) =? AF_INET); now rewrite !length_poke.
  - intros i. rewrite QuicAddrSetToLoopback_object.
    unfold in_sin_addr, in_sin6_addr, Layout.Ipv4_sin_addr,
      Layout.Ipv6_sin6_addr, Layout.sizeof_IN_ADDR, Layout.sizeof_IN6_ADDR.
    destruct (si_family_of (s a) =? AF_INET); intros Hne.
    + destruct (Nat.eq_dec i 4) as [->|H4]; [lia|].
      destruct (Nat.eq_dec i 7) as [->|H7]; [lia|].
      rewrite !peek_poke_ne in Hne by assumption. contradiction.
    + destruct (Nat.eq_dec i 23) as [->|H23]; [lia|].
      rewrite peek_poke_ne in Hne by assumption. contradiction.
  - intros e p i. rewrite QuicAddrSetToLoopback_run.
    unfold in_sin_addr, in_sin6_addr, Layout.Ipv4_sin_addr,
      Layout.Ipv6_sin6_addr, Layout.sizeof_IN_ADDR, Layout.sizeof_IN6_ADDR.
    destruct (si_family_of (s a) =? AF_INET); cbn [trace snd In];
      intros Hin Hw Ht.
    + destruct Hin as [<-|[<-|[<-|[]]]]; cbn [is_read touches] in *;
        first [tauto | split; [symmetry; tauto | lia]].
    + destruct Hin as [<-|[<-|[]]]; cbn [is_read touches] in *;
        first [tauto | split; [symmetry; tauto | lia]].
  - intros q Hq. now apply QuicAddrSetToLoopback_others.
Qed.

(** On 192.168.1.1 the first address byte changes, and it is a byte of the
    IPv4 address; the write at offset 4 falls in the IPv4 address of the
    object itself; object 1 is not touched. *)
Lemma C9_witness :
  in_sin_addr 4
  /\ (0%nat = 0%nat /\ in_sin_addr 4)
  /\ final (QuicAddrSetToLoopback 0%nat example_store) 1%nat
     = example_store 1%nat.
Proof.
  split; [|split].
  - apply (proj1 (proj2 (proj2 (proj2 (proj2
             (C9_loopback_frame example_store 0%nat))))) 4%nat).
    vm_compute. discriminate.
  - apply (proj1 (proj2 (proj2 (proj2 (proj2 (proj2
             (C9_loopback_frame example_store 0%nat))))))
             (Wr 0%nat 4 1) 0%nat 4%nat).
    + vm_compute. tauto.
    + intros [].
    + cbn [touches]. lia.
  - apply (proj2 (proj2 (proj2 (proj2 (proj2 (proj2
             (C9_loopback_frame example_store 0%nat))))))).
    discriminate.
Defined.

(** C10: for every status code, [QUIC_FAILED] is the negation of
    [QUIC_SUCCEEDED], and [QUIC_SUCCEEDED] holds exactly when the code, as
    a signed 32-bit integer, is not negative, that is when bit 31 is
    clear; pending (0x103) and continue (0x104) satisfy it. *)
Theorem C10_failed_is_not_succeeded (c : Z) :
  Status.QUIC_FAILED c = negb (Status.QUIC_SUCCEEDED c)
  /\ (Status.QUIC_SUCCEEDED c = true <-> 0 <= Status.NTSTATUS c)
  /\ Status.QUIC_SUCCEEDED c = negb (Z.testbit c 31)
  /\ - 2 ^ 31 <= Status.NTSTATUS c < 2 ^ 31
  /\ (- 2 ^ 31 <= c < 2 ^ 31 ->
      Status.NTSTATUS c = c /\ (Status.QUIC_SUCCEEDED c = true <-> 0 <= c))
  /\ (0 <= c < 2 ^ 32 ->
      (Status.QUIC_SUCCEEDED c = true <-> c < 2 ^ 31))
  /\ Status.QUIC_STATUS_PENDING = 0x00000103
  /\ Status.QUIC_SUCCEEDED Status.QUIC_STATUS_PENDING = true
  /\ Status.QUIC_STATUS_CONTINUE = 0x00000104
  /\ Status.QUIC_SUCCEEDED Status.QUIC_STATUS_CONTINUE = true.
Proof.
  split; [reflexivity|].
  split; [unfold Status.QUIC_SUCCEEDED, Status.NT_SUCCESS; apply Z.leb_le|].
  split; [apply NT_SUCCESS_sign_bit|].
  split; [apply NTSTATUS_range|].
  split; [|split; [|repeat split]].
  - intros Hc. split; [now apply NTSTATUS_id|].
    unfold Status.QUIC_SUCCEEDED, Status.NT_SUCCESS.
    rewrite NTSTATUS_id by exact Hc. apply Z.leb_le.
  - intros Hc. unfold Status.QUIC_SUCCEEDED.
    rewrite NT_SUCCESS_sign_bit, testbit_31_mod, negb_involutive.
    rewrite Z.mod_small by exact Hc. apply Z.ltb_lt.
Qed.

(** The header's own handshake-failure value, as the signed integer
    -1071382528, is a failure; as the pattern 0xC0240000 it has bit 31
    set. *)
Lemma C10_witness :
  (Status.QUIC_SUCCEEDED (-1071382528) = true <-> 0 <= -1071382528)
  /\ (Status.QUIC_SUCCEEDED 0xC0240000 = true <-> 0xC0240000 < 2 ^ 31).
Proof.
  split.
  - apply (proj1 (proj2 (proj2 (proj2 (proj2
             (C10_failed_is_not_succeeded (-1071382528))))))).
    lia.
  - apply (proj1 (proj2 (proj2 (proj2 (proj2 (proj2
             (C10_failed_is_not_succeeded 0xC0240000))))))).
    lia.
Defined.

(* ================================================================= *)
(** * Further properties of the helpers *)

(** ** More on images *)

Lemma byte_of_eq (z : Z) (b : byte) : z mod 256 = byte_val b -> byte_of z = b.
Proof.
  intros H. unfold byte_of. rewrite H. unfold byte_val.
  rewrite N2Z.id, Byte.of_to_N. reflexivity.
Qed.

Lemma poke_peek_id (m : image) (off : nat) : poke m off (peek m off) = m.
Proof.
  unfold peek. revert off.
  induction m as [|b m IH]; intros [|k]; cbn [poke nth]; try reflexivity.
  f_equal. apply IH.
Qed.

Lemma poke_poke_same (m : image) (off : nat) (v w : byte) :
  poke (poke m off v) off w = poke m off w.
Proof.
  revert off. induction m as [|b m IH]; intros [|k]; cbn [poke];
    try reflexivity.
  f_equal. apply IH.
Qed.

Lemma poke_poke_comm (m : image) (i j : nat) (v w : byte) :
  i <> j -> poke (poke m i v) j w = poke (poke m j w) i v.
Proof.
  revert i j. induction m as [|b m IH]; intros [|i] [|j] H; cbn [poke];
    try reflexivity; try lia.
  f_equal. apply IH. lia.
Qed.

Lemma bytes_at_zero (m : image) (off n : nat) :
  (forall i, (off <= i < off + n)%nat -> peek m i = x00) ->
  bytes_at m off n = repeat x00 n.
Proof.
  revert off. induction n as [|n IH]; intros off H; [reflexivity|].
  unfold bytes_at in *. cbn [seq map repeat]. f_equal.
  - apply H. lia.
  - apply IH. intros i Hi. apply H. lia.
Qed.

Lemma le_decode_2_range (m : image) (off : nat) :
  0 <= le_decode (bytes_at m off 2) < 2 ^ 16.
Proof.
  unfold bytes_at. cbn [seq map]. rewrite le_decode_2.
  pose proof (byte_val_range (peek m off)).
  pose proof (byte_val_range (peek m (S off))).
  change (2 ^ 16) with 65536. lia.
Qed.

Lemma le_encode_decode_2 (a b : byte) : le_encode 2 (le_decode [a; b]) = [a; b].
Proof.
  rewrite le_decode_2. cbn [le_encode].
  pose proof (byte_val_range a) as Ha. pose proof (byte_val_range b) as Hb.
  f_equal; [|f_equal].
  - apply byte_of_eq.
    rewrite (Z.mul_comm 256), Z.mod_add by lia. now apply Z.mod_small.
  - apply byte_of_eq.
    rewrite (Z.mul_comm 256), Z.div_add by lia.
    rewrite Z.div_small by lia. now apply Z.mod_small.
Qed.

Lemma bytes_at_poke_u16_outside (m : image) (k : nat) (v : Z) (off n : nat) :
  (off + n <= k \/ k + 2 <= off)%nat ->
  bytes_at (poke_bytes m k (le_encode 2 v)) off n = bytes_at m off n.
Proof.
  intros H. cbn [le_encode poke_bytes].
  rewrite !bytes_at_poke_outside by lia. reflexivity.
Qed.

Lemma length_poke_u16 (m : image) (k : nat) (v : Z) :
  length (poke_bytes m k (le_encode 2 v)) = length m.
Proof. cbn [le_encode poke_bytes]. now rewrite !length_poke. Qed.

(** ** Family and port accessors *)

Lemma QuicAddrGetFamily_run (a : ptr) (s : store) :
  QuicAddrGetFamily a s = (uint16_t (si_family_of (s a)), s, [Rd a 0 2]).
Proof. reflexivity. Qed.

Lemma QuicAddrSetFamily_run (a : ptr) (f : Z) (s : store) :
  QuicAddrSetFamily a f s
  = (tt,
     set_object s a (poke_bytes (s a) Layout.si_family (le_encode 2 f)),
     [Wr a 0 2]).
Proof. reflexivity. Qed.

Lemma si_family_range (m : image) : 0 <= si_family_of m < 2 ^ 16.
Proof. apply le_decode_2_range. Qed.

Lemma sin_port_range (m : image) : 0 <= sin_port_of m < 2 ^ 16.
Proof. apply le_decode_2_range. Qed.

Lemma si_family_after_SetFamily (a : ptr) (f : Z) (s : store) :
  is_QUIC_ADDR (s a) ->
  si_family_of (final (QuicAddrSetFamily a f s) a) = uint16_t f.
Proof.
  intros Hwf. rewrite QuicAddrSetFamily_run. unfold final. cbn [fst snd].
  rewrite set_object_same. unfold si_family_of.
  apply u16_after_store.
  unfold is_QUIC_ADDR, Layout.sizeof_QUIC_ADDR in Hwf.
  unfold Layout.si_family. lia.
Qed.

Lemma SetFamily_frame (a : ptr) (f : Z) (s : store) (off n : nat) :
  (2 <= off)%nat ->
  bytes_at (final (QuicAddrSetFamily a f s) a) off n = bytes_at (s a) off n.
Proof.
  intros H. rewrite QuicAddrSetFamily_run. unfold final. cbn [fst snd].
  rewrite set_object_same. apply bytes_at_poke_u16_outside.
  unfold Layout.si_family. lia.
Qed.

Lemma SetPort_frame (a : ptr) (p : Z) (s : store) (off n : nat) :
  (off + n <= 2 \/ 4 <= off)%nat ->
  bytes_at (final (QuicAddrSetPort a p s) a) off n = bytes_at (s a) off n.
Proof.
  intros H. rewrite QuicAddrSetPort_run. unfold final. cbn [fst snd].
  rewrite set_object_same. apply bytes_at_poke_u16_outside.
  unfold Layout.Ipv4_sin_port. lia.
Qed.

Lemma SetPort_others (a q : ptr) (p : Z) (s : store) :
  q <> a -> final (QuicAddrSetPort a p s) q = s q.
Proof.
  intros H. rewrite QuicAddrSetPort_run. unfold final. cbn [fst snd].
  now apply set_object_other.
Qed.

Lemma SetFamily_others (a q : ptr) (f : Z) (s : store) :
  q <> a -> final (QuicAddrSetFamily a f s) q = s q.
Proof.
  intros H. rewrite QuicAddrSetFamily_run. unfold final. cbn [fst snd].
  now apply set_object_other.
Qed.

Lemma QuicAddrIsValid_iff (a : ptr) (s : store) :
  result (QuicAddrIsValid a s) = true <-> valid_family (si_family_of (s a)).
Proof.
  rewrite QuicAddrIsValid_run. unfold valid_family.
  rewrite !orb_true_iff, !Z.eqb_eq. tauto.
Qed.

Lemma QuicAddrIsValid_family (a b : ptr) (s s' : store) :
  si_family_of (s' b) = si_family_of (s a) ->
  result (QuicAddrIsValid b s') = result (QuicAddrIsValid a s).
Proof. intros H. rewrite !QuicAddrIsValid_run, H. reflexivity. Qed.

Lemma QuicAddrIsValid_final (a : ptr) (s : store) :
  final (QuicAddrIsValid a s) = s.
Proof.
  unfold QuicAddrIsValid. run_M.
  destruct (_ =? AF_UNSPEC); [reflexivity|].
  destruct (_ =? AF_INET); reflexivity.
Qed.

Lemma QuicNetByteSwapShort_involutive (x : Z) :
  0 <= x < 2 ^ 16 -> QuicNetByteSwapShort (QuicNetByteSwapShort x) = x.
Proof.
  intros Hx. rewrite (QuicNetByteSwapShort_exchange x Hx).
  rewrite QuicNetByteSwapShort_exchange
    by (apply exchange_bytes_range; exact Hx).
  apply exchange_bytes_involutive. exact Hx.
Qed.

Lemma set_object_self (s : store) (a q : ptr) : set_object s a (s a) q = s q.
Proof.
  unfold set_object. destruct (Nat.eqb_spec q a) as [->|_]; reflexivity.
Qed.

Lemma set_object_twice (s : store) (a q : ptr) (m m' : image) :
  set_object (set_object s a m) a m' q = set_object s a m' q.
Proof.
  unfold set_object. destruct (Nat.eqb_spec q a); reflexivity.
Qed.

Lemma QuicAddrIsWildCard_views (a b : ptr) (s s' : store) :
  si_family_of (s' b) = si_family_of (s a) ->
  sin_addr_of (s' b) = sin_addr_of (s a) ->
  sin6_addr_of (s' b) = sin6_addr_of (s a) ->
  result (QuicAddrIsWildCard b s') = result (QuicAddrIsWildCard a s).
Proof.
  intros Hf H4 H6. rewrite !QuicAddrIsWildCard_run, Hf, H4, H6.
  destruct (_ =? AF_UNSPEC); [reflexivity|].
  destruct (_ =? AF_INET); reflexivity.
Qed.

(** X1: [QuicAddrIsValid] answers true exactly for the families
    [AF_UNSPEC], [AF_INET] and [AF_INET6], changes nothing, and its answer
    on an object is the same after [QuicAddrSetPort] or
    [QuicAddrSetToLoopback] on that object. *)
Theorem X1_valid_family_only (s : store) (a : ptr) (p : Z) :
  (result (QuicAddrIsValid a s) = true
   <-> valid_family (si_family_of (s a)))
  /\ final (QuicAddrIsValid a s) = s
  /\ result (QuicAddrIsValid a (final (QuicAddrSetPort a p s)))
     = result (QuicAddrIsValid a s)
  /\ result (QuicAddrIsValid a (final (QuicAddrSetToLoopback a s)))
     = result (QuicAddrIsValid a s).
Proof.
  split; [apply QuicAddrIsValid_iff|].
  split; [apply QuicAddrIsValid_final|]. split.
  - apply QuicAddrIsValid_family. unfold si_family_of, Layout.si_family.
    rewrite SetPort_frame by lia. reflexivity.
  - apply QuicAddrIsValid_family. unfold si_family_of, Layout.si_family.
    rewrite loopback_object_frame by lia. reflexivity.
Qed.

(** X2: on a 28-byte object, [QuicAddrGetFamily] after
    [QuicAddrSetFamily] with [Family] returns [Family] truncated to 16
    bits ([Family] itself when it is a 16-bit value); the setter leaves the
    port, both address payloads, the scope id and every other object as
    they were. *)
Theorem X2_family_round_trip (s : store) (a : ptr) (Family : Z) :
  is_QUIC_ADDR (s a) ->
  result (QuicAddrGetFamily a (final (QuicAddrSetFamily a Family s)))
  = Family mod 2 ^ 16
  /\ (0 <= Family < 2 ^ 16 ->
      result (QuicAddrGetFamily a (final (QuicAddrSetFamily a Family s)))
      = Family)
  /\ sin_port_of (final (QuicAddrSetFamily a Family s) a)
     = sin_port_of (s a)
  /\ sin_addr_of (final (QuicAddrSetFamily a Family s) a)
     = sin_addr_of (s a)
  /\ sin6_addr_of (final (QuicAddrSetFamily a Family s) a)
     = sin6_addr_of (s a)
  /\ sin6_scope_id_of (final (QuicAddrSetFamily a Family s) a)
     = sin6_scope_id_of (s a)
  /\ (forall q, q <> a -> final (QuicAddrSetFamily a Family s) q = s q).
Proof.
  intros Hwf.
  assert (Hget : result (QuicAddrGetFamily a
                           (final (QuicAddrSetFamily a Family s)))
                 = Family mod 2 ^ 16).
  { rewrite QuicAddrGetFamily_run. unfold result. cbn [fst].
    rewrite si_family_after_SetFamily by exact Hwf.
    unfold uint16_t. apply Z.mod_mod. discriminate. }
  split; [exact Hget|]. split; [|repeat split].
  - intros Hf. rewrite Hget. now apply Z.mod_small.
  - unfold sin_port_of, Layout.Ipv4_sin_port.
    rewrite SetFamily_frame by lia. reflexivity.
  - unfold sin_addr_of, Layout.Ipv4_sin_addr. apply SetFamily_frame. lia.
  - unfold sin6_addr_of, Layout.Ipv6_sin6_addr. apply SetFamily_frame. lia.
  - unfold sin6_scope_id_of, Layout.Ipv6_sin6_scope_id.
    rewrite SetFamily_frame by lia. reflexivity.
  - intros q Hq. now apply SetFamily_others.
Qed.

(** Turning the IPv4 wildcard object into an [AF_INET6] one. *)
Lemma X2_witness :
  result (QuicAddrGetFamily 5%nat
            (final (QuicAddrSetFamily 5%nat AF_INET6 example_store)))
  = AF_INET6
  /\ final (QuicAddrSetFamily 5%nat AF_INET6 example_store) 0%nat
     = example_store 0%nat.
Proof.
  split.
  - apply (proj1 (proj2
             (X2_family_round_trip example_store 5%nat AF_INET6 eq_refl))).
    unfold AF_INET6. lia.
  - apply (proj2 (proj2 (proj2 (proj2 (proj2 (proj2
             (X2_family_round_trip example_store 5%nat AF_INET6
                eq_refl))))))).
    discriminate.
Defined.

(** X3: [QuicAddrSetPort] changes the port field only: the family tag, both
    address payloads, the scope id, the object's size and every other
    object stay as they were, and so do the answers of
    [QuicAddrIsWildCard] and [QuicAddrIsBoundExplicitly]. *)
Theorem X3_set_port_frame (s : store) (a : ptr) (Port : Z) :
  si_family_of (final (QuicAddrSetPort a Port s) a) = si_family_of (s a)
  /\ sin_addr_of (final (QuicAddrSetPort a Port s) a) = sin_addr_of (s a)
  /\ sin6_addr_of (final (QuicAddrSetPort a Port s) a) = sin6_addr_of (s a)
  /\ sin6_scope_id_of (final (QuicAddrSetPort a Port s) a)
     = sin6_scope_id_of (s a)
  /\ length (final (QuicAddrSetPort a Port s) a) = length (s a)
  /\ (forall q, q <> a -> final (QuicAddrSetPort a Port s) q = s q)
  /\ result (QuicAddrIsWildCard a (final (QuicAddrSetPort a Port s)))
     = result (QuicAddrIsWildCard a s)
  /\ result (QuicAddrIsBoundExplicitly a (final (QuicAddrSetPort a Port s)))
     = result (QuicAddrIsBoundExplicitly a s).
Proof.
  assert (Hf : si_family_of (final (QuicAddrSetPort a Port s) a)
               = si_family_of (s a)).
  { unfold si_family_of, Layout.si_family. rewrite SetPort_frame by lia.
    reflexivity. }
  assert (H4 : sin_addr_of (final (QuicAddrSetPort a Port s) a)
               = sin_addr_of (s a)).
  { unfold sin_addr_of, Layout.Ipv4_sin_addr. apply SetPort_frame. lia. }
  assert (H6 : sin6_addr_of (final (QuicAddrSetPort a Port s) a)
               = sin6_addr_of (s a)).
  { unfold sin6_addr_of, Layout.Ipv6_sin6_addr. apply SetPort_frame. lia. }
  assert (Hs : sin6_scope_id_of (final (QuicAddrSetPort a Port s) a)
               = sin6_scope_id_of (s a)).
  { unfold sin6_scope_id_of, Layout.Ipv6_sin6_scope_id.
    rewrite SetPort_frame by lia. reflexivity. }
  repeat split; try assumption.
  - rewrite QuicAddrSetPort_run. unfold final. cbn [fst snd].
    rewrite set_object_same. apply length_poke_u16.
  - intros q Hq. now apply SetPort_others.
  - now apply QuicAddrIsWildCard_views.
  - rewrite !QuicAddrIsBoundExplicitly_run. unfold result. cbn [fst].
    rewrite Hs. reflexivity.
Qed.

(** Setting the port of object 0 leaves object 1 alone. *)
Lemma X3_witness :
  final (QuicAddrSetPort 0%nat 8443 example_store) 1%nat
  = example_store 1%nat.
Proof.
  apply (proj1 (proj2 (proj2 (proj2 (proj2 (proj2
           (X3_set_port_frame example_store 0%nat 8443))))))).
  discriminate.
Defined.

(** X4: writing back the port [QuicAddrGetPort] returns leaves every object
    exactly as it was, and of two successive [QuicAddrSetPort] on one
    object only the second counts. *)
Theorem X4_set_port_get_port (s : store) (a : ptr) (p1 p2 : Z) (q : ptr) :
  final (QuicAddrSetPort a (result (QuicAddrGetPort a s)) s) q = s q
  /\ final (QuicAddrSetPort a p2 (final (QuicAddrSetPort a p1 s))) q
     = final (QuicAddrSetPort a p2 s) q.
Proof.
  split.
  - rewrite QuicAddrGetPort_run. unfold result. cbn [fst].
    rewrite QuicAddrSetPort_run. unfold final. cbn [fst snd].
    rewrite QuicNetByteSwapShort_involutive by apply sin_port_range.
    unfold sin_port_of, bytes_at. cbn [seq map].
    rewrite le_encode_decode_2. cbn [poke_bytes].
    rewrite !poke_peek_id. apply set_object_self.
  - rewrite !QuicAddrSetPort_run. unfold final. cbn [fst snd].
    rewrite set_object_same, set_object_twice.
    cbn [le_encode poke_bytes].
    set (x := byte_of (QuicNetByteSwapShort p1)).
    set (y := byte_of (QuicNetByteSwapShort p1 / 256)).
    set (u := byte_of (QuicNetByteSwapShort p2)).
    set (v := byte_of (QuicNetByteSwapShort p2 / 256)).
    unfold Layout.Ipv4_sin_port.
    rewrite (poke_poke_comm (poke (s a) 2 x) 3 2) by lia.
    rewrite !poke_poke_same. reflexivity.
Qed.

(** ** What equality and the hash look at *)

Lemma QuicAddrCompare_iff (a b : ptr) (s : store) :
  result (QuicAddrCompare a b s) = true <-> addr_key (s a) = addr_key (s b).
Proof.
  split.
  - intros H. apply QuicAddrCompare_true in H as (Hf & Hp & Hpl).
    unfold addr_key. rewrite Hf, Hp, Hpl. reflexivity.
  - unfold addr_key. intros H. injection H as Hf Hp Hpl.
    rewrite QuicAddrCompare_run, Hf, Hp, !Z.eqb_refl. cbn [negb].
    unfold result at 1. cbn [fst].
    apply QuicAddrCompareIp_result. rewrite Hpl.
    unfold family_payload. rewrite Hf. reflexivity.
Qed.

Lemma QuicAddrCompare_key (a b a' b' : ptr) (s s' : store) :
  addr_key (s a) = addr_key (s' a') ->
  addr_key (s b) = addr_key (s' b') ->
  result (QuicAddrCompare a b s) = result (QuicAddrCompare a' b' s').
Proof.
  intros Ha Hb. apply eq_true_iff_eq.
  rewrite !QuicAddrCompare_iff, Ha, Hb. reflexivity.
Qed.

Lemma QuicAddrHash_key (a a' : ptr) (s s' : store) :
  addr_key (s a) = addr_key (s' a') ->
  result (QuicAddrHash a s) = result (QuicAddrHash a' s').
Proof.
  unfold addr_key. intros H. injection H as Hf Hp Hpl.
  rewrite !QuicAddrHash_result. unfold Hash_reference.
  rewrite Hp, Hpl. reflexivity.
Qed.

Lemma addr_key_poke (m : image) (i : nat) (v : byte) :
  (24 <= i
   \/ (si_family_of m <> AF_INET /\ 4 <= i < 8)
   \/ (si_family_of m = AF_INET /\ 8 <= i))%nat ->
  addr_key (poke m i v) = addr_key m.
Proof.
  intros Hi.
  assert (Hf : si_family_of (poke m i v) = si_family_of m).
  { unfold si_family_of, Layout.si_family.
    rewrite bytes_at_poke_outside by lia. reflexivity. }
  assert (Hp : sin_port_of (poke m i v) = sin_port_of m).
  { unfold sin_port_of, Layout.Ipv4_sin_port.
    rewrite bytes_at_poke_outside by lia. reflexivity. }
  unfold addr_key, family_payload. rewrite Hf, Hp. f_equal.
  unfold sin_addr_of, sin6_addr_of, Layout.Ipv4_sin_addr,
    Layout.Ipv6_sin6_addr, Layout.sizeof_IN_ADDR, Layout.sizeof_IN6_ADDR.
  destruct (Z.eqb_spec (si_family_of m) AF_INET) as [E|E];
    apply bytes_at_poke_outside; lia.
Qed.

Lemma hash_step_range (h b : Z) : 0 <= hash_step h b < 2 ^ 32.
Proof. unfold hash_step. apply Z.mod_pos_bound. reflexivity. Qed.

Lemma fold_hash_step_range (l : list Z) (h : Z) :
  0 <= h < 2 ^ 32 -> 0 <= fold_left hash_step l h < 2 ^ 32.
Proof.
  revert h. induction l as [|b l IH]; intros h Hh; cbn [fold_left];
    [exact Hh|].
  apply IH. apply hash_step_range.
Qed.

(** X5: [QuicAddrCompare] is an equivalence on the objects of a store:
    every address equals itself, the answer does not depend on the order
    of the two arguments, and equality carries over a middle address. *)
Theorem X5_compare_equivalence (s : store) (a b c : ptr) :
  result (QuicAddrCompare a a s) = true
  /\ result (QuicAddrCompare a b s) = result (QuicAddrCompare b a s)
  /\ (result (QuicAddrCompare a b s) = true ->
      result (QuicAddrCompare b c s) = true ->
      result (QuicAddrCompare a c s) = true).
Proof.
  split; [|split].
  - apply QuicAddrCompare_iff. reflexivity.
  - apply eq_true_iff_eq. rewrite !QuicAddrCompare_iff.
    split; intros H; symmetry; exact H.
  - rewrite !QuicAddrCompare_iff. intros H1 H2. now rewrite H1.
Qed.

(** The clean and the dirty 192.168.1.1:443, both ways round. *)
Lemma X5_witness :
  result (QuicAddrCompare 0%nat 0%nat example_store) = true.
Proof.
  apply (proj2 (proj2 (X5_compare_equivalence example_store 0%nat 4%nat
                         0%nat))); vm_compute; reflexivity.
Defined.

(** X6: the answers of [QuicAddrCompare] and [QuicAddrHash] are functions
    of the family tag, the raw port and the family-selected payload of
    their arguments: objects that agree on these three get the same
    answers, in any store and whatever their other bytes hold. *)
Theorem X6_compare_hash_key_only
  (s s' : store) (a b a' b' : ptr) :
  addr_key (s a) = addr_key (s' a') ->
  addr_key (s b) = addr_key (s' b') ->
  result (QuicAddrCompare a b s) = result (QuicAddrCompare a' b' s')
  /\ result (QuicAddrHash a s) = result (QuicAddrHash a' s').
Proof.
  intros Ha Hb. split.
  - now apply QuicAddrCompare_key.
  - now apply QuicAddrHash_key.
Qed.

(** fe80::1 port 443 with scope id 7 and with scope id 9 and another flow
    info: one key, so one hash. *)
Lemma X6_witness :
  result (QuicAddrCompare 0%nat 0%nat example_store_v6)
  = result (QuicAddrCompare 1%nat 1%nat example_store_v6)
  /\ result (QuicAddrHash 0%nat example_store_v6)
     = result (QuicAddrHash 1%nat example_store_v6).
Proof.
  apply (X6_compare_hash_key_only example_store_v6 example_store_v6
           0%nat 0%nat 1%nat 1%nat);
    vm_compute; reflexivity.
Defined.

(** X7: [QuicAddrCompare] and [QuicAddrHash] ignore the scope id, and on an
    object whose family is not [AF_INET] the flow info, on an [AF_INET]
    object every byte after the IPv4 address: overwriting such a byte of
    the second argument changes neither the comparison nor the hash. *)
Theorem X7_scope_and_flow_ignored
  (s : store) (a b : ptr) (i : nat) (v : byte) :
  (24 <= i
   \/ (si_family_of (s b) <> AF_INET /\ 4 <= i < 8)
   \/ (si_family_of (s b) = AF_INET /\ 8 <= i))%nat ->
  result (QuicAddrCompare a b (set_object s b (poke (s b) i v)))
  = result (QuicAddrCompare a b s)
  /\ result (QuicAddrHash b (set_object s b (poke (s b) i v)))
     = result (QuicAddrHash b s).
Proof.
  intros Hi.
  assert (Hb : addr_key (set_object s b (poke (s b) i v) b)
               = addr_key (s b)).
  { rewrite set_object_same. now apply addr_key_poke. }
  assert (Ha : addr_key (set_object s b (poke (s b) i v) a)
               = addr_key (s a)).
  { destruct (Nat.eq_dec a b) as [->|Hne]; [exact Hb|].
    now rewrite set_object_other. }
  split.
  - now apply QuicAddrCompare_key.
  - now apply QuicAddrHash_key.
Qed.

(** Changing the low scope-id byte of the second fe80::1 object. *)
Lemma X7_witness :
  result (QuicAddrCompare 0%nat 1%nat
            (set_object example_store_v6 1%nat
               (poke (example_store_v6 1%nat) 24 x2a)))
  = result (QuicAddrCompare 0%nat 1%nat example_store_v6).
Proof.
  apply (proj1 (X7_scope_and_flow_ignored example_store_v6 0%nat 1%nat
                  24%nat x2a (or_introl (le_n 24)))).
Defined.

(** X8: the value of [QuicAddrHash] is a 32-bit unsigned integer. *)
Theorem X8_hash_range (s : store) (a : ptr) :
  0 <= result (QuicAddrHash a s) < 2 ^ 32.
Proof.
  rewrite QuicAddrHash_result. unfold Hash_reference.
  apply fold_hash_step_range. split; [lia|reflexivity].
Qed.

(** X9: the hash does not take the family tag in: two objects whose
    families differ, neither being [AF_INET], with the same raw port and
    the same sixteen IPv6 address bytes, hash alike although
    [QuicAddrCompare] tells them apart. *)
Theorem X9_hash_ignores_family (s : store) (a b : ptr) :
  si_family_of (s a) <> si_family_of (s b) ->
  si_family_of (s a) <> AF_INET ->
  si_family_of (s b) <> AF_INET ->
  sin_port_of (s a) = sin_port_of (s b) ->
  sin6_addr_of (s a) = sin6_addr_of (s b) ->
  result (QuicAddrHash a s) = result (QuicAddrHash b s)
  /\ result (QuicAddrCompare a b s) = false.
Proof.
  intros Hd Ha Hb Hp H6. split.
  - apply QuicAddrHash_depends; [exact Hp|].
    unfold family_payload.
    destruct (Z.eqb_spec (si_family_of (s a)) AF_INET); [contradiction|].
    destruct (Z.eqb_spec (si_family_of (s b)) AF_INET); [contradiction|].
    exact H6.
  - rewrite QuicAddrCompare_run.
    destruct (Z.eqb_spec (si_family_of (s a)) (si_family_of (s b)));
      [contradiction|reflexivity].
Qed.

(** fe80::1 port 443 tagged [AF_INET6] and tagged [AF_UNSPEC]. *)
Lemma X9_witness :
  result (QuicAddrHash 0%nat example_store_v6)
  = result (QuicAddrHash 2%nat example_store_v6)
  /\ result (QuicAddrCompare 0%nat 2%nat example_store_v6) = false.
Proof.
  apply (X9_hash_ignores_family example_store_v6 0%nat 2%nat);
    vm_compute; congruence.
Defined.

(** ** Loopback, wildcard and family *)

Lemma loopback_family (a : ptr) (s : store) :
  si_family_of (final (QuicAddrSetToLoopback a s) a) = si_family_of (s a).
Proof.
  unfold si_family_of, Layout.si_family.
  rewrite loopback_object_frame by lia. reflexivity.
Qed.

(** X10: on a 28-byte object, [QuicAddrIsWildCard] after
    [QuicAddrSetToLoopback] answers false for every family but
    [AF_UNSPEC], whatever the address bytes were; an [AF_UNSPEC] object
    stays a wildcard. *)
Theorem X10_loopback_is_not_wildcard (s : store) (a : ptr) :
  is_QUIC_ADDR (s a) ->
  result (QuicAddrIsWildCard a (final (QuicAddrSetToLoopback a s)))
  = (si_family_of (s a) =? AF_UNSPEC).
Proof.
  intros Hwf. apply eq_true_iff_eq.
  rewrite QuicAddrIsWildCard_result, Z.eqb_eq. unfold wildcard_cond.
  rewrite loopback_family, QuicAddrSetToLoopback_object.
  destruct (Z.eqb_spec (si_family_of (s a)) AF_INET) as [E4|E4].
  - rewrite (sin_addr_after_loopback _ Hwf).
    assert (Hu : AF_INET <> AF_UNSPEC) by discriminate.
    split; [|rewrite E4; tauto].
    intros [H|[[_ H]|[_ [H _]]]]; [exact H| |contradiction].
    discriminate H.
  - rewrite (sin6_addr_after_loopback _ Hwf).
    split; [|tauto].
    intros [H|[[H _]|[_ [_ H]]]]; [exact H|contradiction|].
    change zero_v6 with (repeat x00 15 ++ [x00]) in H.
    apply app_inj_tail in H. destruct H as [_ H]. discriminate H.
Qed.

(** 192.168.1.1 is no wildcard after the call (it is 127.168.1.1). *)
Lemma X10_witness :
  result (QuicAddrIsWildCard 0%nat
            (final (QuicAddrSetToLoopback 0%nat example_store)))
  = false.
Proof.
  apply (X10_loopback_is_not_wildcard example_store 0%nat eq_refl).
Defined.

(** X11: [QuicAddrSetToLoopback] is idempotent: a second call on the same
    object leaves every object as the first call left it. *)
Theorem X11_loopback_idempotent (s : store) (a q : ptr) :
  final (QuicAddrSetToLoopback a (final (QuicAddrSetToLoopback a s))) q
  = final (QuicAddrSetToLoopback a s) q.
Proof.
  destruct (Nat.eq_dec q a) as [->|Hq].
  - rewrite (QuicAddrSetToLoopback_object a (final _)), loopback_family.
    rewrite QuicAddrSetToLoopback_object.
    destruct (si_family_of (s a) =? AF_INET).
    + rewrite (poke_poke_comm (poke (s a) 4 (byte_of 127)) 7 4) by lia.
      rewrite !poke_poke_same. reflexivity.
    + apply poke_poke_same.
  - rewrite !QuicAddrSetToLoopback_others by exact Hq. reflexivity.
Qed.

(** X12: an object whose bytes 4 to 23 are all zero is a wildcard for
    [QuicAddrIsWildCard] whatever its family tag. *)
Theorem X12_zero_payload_is_wildcard (s : store) (a : ptr) :
  (forall i, (4 <= i < 24)%nat -> peek (s a) i = x00) ->
  result (QuicAddrIsWildCard a s) = true.
Proof.
  intros Hz. apply QuicAddrIsWildCard_result. unfold wildcard_cond.
  assert (H4 : sin_addr_of (s a) = zero_v4).
  { apply bytes_at_zero. intros i Hi. apply Hz.
    unfold Layout.Ipv4_sin_addr, Layout.sizeof_IN_ADDR in Hi. lia. }
  assert (H6 : sin6_addr_of (s a) = zero_v6).
  { apply bytes_at_zero. intros i Hi. apply Hz.
    unfold Layout.Ipv6_sin6_addr, Layout.sizeof_IN6_ADDR in Hi. lia. }
  destruct (Z.eq_dec (si_family_of (s a)) AF_UNSPEC); [tauto|].
  destruct (Z.eq_dec (si_family_of (s a)) AF_INET); tauto.
Qed.

(** The zero-filled object with family tag 99. *)
Lemma X12_witness : result (QuicAddrIsWildCard 3%nat example_store) = true.
Proof.
  apply (X12_zero_payload_is_wildcard example_store 3%nat).
  intros i Hi.
  do 4 (destruct i as [|i]; [lia|]).
  do 20 (destruct i as [|i]; [reflexivity|]).
  lia.
Defined.

(** X13: on a 28-byte object, after [QuicAddrSetFamily] with [Family] the
    object is valid for [QuicAddrIsValid] exactly when [Family], truncated
    to 16 bits, is one of the three families; after [QuicAddrSetFamily]
    with [AF_UNSPEC] it is a wildcard whatever its bytes. *)
Theorem X13_set_family_valid_wildcard (s : store) (a : ptr) (Family : Z) :
  is_QUIC_ADDR (s a) ->
  (result (QuicAddrIsValid a (final (QuicAddrSetFamily a Family s))) = true
   <-> valid_family (Family mod 2 ^ 16))
  /\ result (QuicAddrIsWildCard a
               (final (QuicAddrSetFamily a AF_UNSPEC s))) = true.
Proof.
  intros Hwf. split.
  - rewrite QuicAddrIsValid_iff, si_family_after_SetFamily by exact Hwf.
    reflexivity.
  - apply QuicAddrIsWildCard_result. left.
    rewrite si_family_after_SetFamily by exact Hwf. reflexivity.
Qed.

(** 192.168.1.1 retagged [AF_UNSPEC] is a wildcard. *)
Lemma X13_witness :
  result (QuicAddrIsWildCard 0%nat
            (final (QuicAddrSetFamily 0%nat AF_UNSPEC example_store))) = true.
Proof.
  apply (X13_set_family_valid_wildcard example_store 0%nat AF_UNSPEC eq_refl).
Defined.

(** ** The byte swap on arbitrary integers *)

Lemma land_mod16 (x mask : Z) :
  Z.land (Z.ones 16) mask = mask ->
  Z.land (x mod 2 ^ 16) mask = Z.land x mask.
Proof.
  intros H. rewrite <- Z.land_ones by lia.
  rewrite <- Z.land_assoc, H. reflexivity.
Qed.

Lemma QuicNetByteSwapShort_trunc (x : Z) :
  QuicNetByteSwapShort (x mod 2 ^ 16) = QuicNetByteSwapShort x.
Proof.
  unfold QuicNetByteSwapShort.
  rewrite !land_mod16 by reflexivity. reflexivity.
Qed.

Lemma QuicNetByteSwapShort_range (x : Z) :
  0 <= QuicNetByteSwapShort x < 2 ^ 16.
Proof.
  unfold QuicNetByteSwapShort, uint16_t. apply Z.mod_pos_bound. reflexivity.
Qed.

Lemma QuicNetByteSwapShort_inj (x y : Z) :
  0 <= x < 2 ^ 16 -> 0 <= y < 2 ^ 16 ->
  QuicNetByteSwapShort x = QuicNetByteSwapShort y -> x = y.
Proof.
  intros Hx Hy H.
  rewrite <- (QuicNetByteSwapShort_involutive x Hx),
          <- (QuicNetByteSwapShort_involutive y Hy), H.
  reflexivity.
Qed.

(** X14: [QuicNetByteSwapShort] looks at the low 16 bits of its argument
    only and always yields a 16-bit value; so [QuicAddrGetPort] returns a
    16-bit value, and [QuicAddrSetPort] stores the same bytes for a port
    and for that port truncated to 16 bits. *)
Theorem X14_swap_truncates (s : store) (a : ptr) (x : Z) :
  QuicNetByteSwapShort (x mod 2 ^ 16) = QuicNetByteSwapShort x
  /\ 0 <= QuicNetByteSwapShort x < 2 ^ 16
  /\ 0 <= result (QuicAddrGetPort a s) < 2 ^ 16
  /\ final (QuicAddrSetPort a (x mod 2 ^ 16) s)
     = final (QuicAddrSetPort a x s).
Proof.
  split; [apply QuicNetByteSwapShort_trunc|].
  split; [apply QuicNetByteSwapShort_range|]. split.
  - rewrite QuicAddrGetPort_run. unfold result. cbn [fst].
    apply QuicNetByteSwapShort_range.
  - rewrite !QuicAddrSetPort_run, QuicNetByteSwapShort_trunc. reflexivity.
Qed.

(** ** [QuicAddrCompareIp] and the accessors *)

Lemma memcmp_eqb_sym (x y : list byte) :
  length x = length y -> (memcmp x y =? 0) = (memcmp y x =? 0).
Proof.
  intros H. apply eq_true_iff_eq.
  rewrite !memcmp_eqb_iff by congruence. split; congruence.
Qed.

Lemma SetPort_views (c x : ptr) (p : Z) (s : store) (off n : nat) :
  (off + n <= 2 \/ 4 <= off)%nat ->
  bytes_at (final (QuicAddrSetPort c p s) x) off n = bytes_at (s x) off n.
Proof.
  intros H. destruct (Nat.eq_dec x c) as [->|Hx].
  - now apply SetPort_frame.
  - now rewrite SetPort_others.
Qed.

Lemma QuicAddrCompare_split (a b : ptr) (s : store) :
  result (QuicAddrCompare a b s)
  = (si_family_of (s a) =? si_family_of (s b))
    && (sin_port_of (s a) =? sin_port_of (s b))
    && result (QuicAddrCompareIp a b s).
Proof.
  rewrite QuicAddrCompare_run.
  destruct (si_family_of (s a) =? si_family_of (s b)); [|reflexivity].
  destruct (sin_port_of (s a) =? sin_port_of (s b)); reflexivity.
Qed.

(** X15: [QuicAddrCompareIp] answers true on an address and itself, does
    not depend on the order of its arguments when they have the same
    family, and is not affected by [QuicAddrSetPort] on any object;
    [QuicAddrCompare] is the conjunction of family equality, raw port
    equality and [QuicAddrCompareIp]. *)
Theorem X15_compare_ip (s : store) (a b c : ptr) (Port : Z) :
  result (QuicAddrCompareIp a a s) = true
  /\ (si_family_of (s a) = si_family_of (s b) ->
      result (QuicAddrCompareIp a b s) = result (QuicAddrCompareIp b a s))
  /\ result (QuicAddrCompareIp a b (final (QuicAddrSetPort c Port s)))
     = result (QuicAddrCompareIp a b s)
  /\ result (QuicAddrCompare a b s)
     = (si_family_of (s a) =? si_family_of (s b))
       && (sin_port_of (s a) =? sin_port_of (s b))
       && result (QuicAddrCompareIp a b s).
Proof.
  split; [|split; [|split]].
  - apply QuicAddrCompareIp_result. unfold family_payload.
    destruct (_ =? AF_INET); reflexivity.
  - intros Hf. rewrite !QuicAddrCompareIp_run, <- Hf.
    destruct (_ =? AF_INET); unfold result; cbn [fst];
      apply memcmp_eqb_sym; unfold sin_addr_of, sin6_addr_of;
      now rewrite !length_bytes_at.
  - rewrite !QuicAddrCompareIp_run.
    unfold si_family_of, sin_addr_of, sin6_addr_of, Layout.si_family,
      Layout.Ipv4_sin_addr, Layout.Ipv6_sin6_addr.
    rewrite !SetPort_views by lia.
    destruct (_ =? AF_INET); reflexivity.
  - apply QuicAddrCompare_split.
Qed.

(** 192.168.1.1:443 and 192.168.1.1:8443 have the same family. *)
Lemma X15_witness :
  result (QuicAddrCompareIp 0%nat 1%nat example_store)
  = result (QuicAddrCompareIp 1%nat 0%nat example_store).
Proof.
  apply (proj1 (proj2 (X15_compare_ip example_store 0%nat 1%nat 0%nat 0))).
  reflexivity.
Defined.

Lemma SetPort_key (b : ptr) (p : Z) (s : store) :
  is_QUIC_ADDR (s b) ->
  addr_key (final (QuicAddrSetPort b p s) b)
  = (si_family_of (s b), QuicNetByteSwapShort p, family_payload (s b)).
Proof.
  intros Hwf.
  assert (Hf : si_family_of (final (QuicAddrSetPort b p s) b)
               = si_family_of (s b)).
  { unfold si_family_of, Layout.si_family. rewrite SetPort_frame by lia.
    reflexivity. }
  assert (H4 : sin_addr_of (final (QuicAddrSetPort b p s) b)
               = sin_addr_of (s b)).
  { unfold sin_addr_of, Layout.Ipv4_sin_addr. apply SetPort_frame. lia. }
  assert (H6 : sin6_addr_of (final (QuicAddrSetPort b p s) b)
               = sin6_addr_of (s b)).
  { unfold sin6_addr_of, Layout.Ipv6_sin6_addr. apply SetPort_frame. lia. }
  unfold addr_key, family_payload.
  rewrite Hf, H4, H6, sin_port_after_SetPort by exact Hwf. reflexivity.
Qed.

(** X16: after [QuicAddrSetPort] gives a 28-byte object [b] the 16-bit port
    [Port], [QuicAddrCompare] of another object [a] with [b] is true
    exactly when the families are equal, [QuicAddrGetPort] of [a] is
    [Port], and the family-selected payloads are equal. *)
Theorem X16_compare_after_set_port (s : store) (a b : ptr) (Port : Z) :
  a <> b ->
  is_QUIC_ADDR (s b) ->
  0 <= Port < 2 ^ 16 ->
  (result (QuicAddrCompare a b (final (QuicAddrSetPort b Port s))) = true
   <-> si_family_of (s a) = si_family_of (s b)
       /\ result (QuicAddrGetPort a s) = Port
       /\ family_payload (s a) = family_payload (s b)).
Proof.
  intros Hab Hwf Hp.
  rewrite QuicAddrCompare_iff.
  rewrite (SetPort_others b a) by exact Hab.
  rewrite SetPort_key by exact Hwf. unfold addr_key.
  rewrite QuicAddrGetPort_run. unfold result. cbn [fst].
  pose proof (sin_port_range (s a)) as Hr.
  split.
  - intros H. injection H as Hf Hpt Hpl.
    split; [exact Hf|]. split; [|exact Hpl].
    rewrite Hpt. now apply QuicNetByteSwapShort_involutive.
  - intros (Hf & Hpt & Hpl). rewrite Hf, Hpl. f_equal. f_equal.
    rewrite <- Hpt. symmetry.
    now apply QuicNetByteSwapShort_involutive.
Qed.

(** The 8443 object given port 443 equals the 443 object. *)
Lemma X16_witness :
  result (QuicAddrCompare 0%nat 1%nat
            (final (QuicAddrSetPort 1%nat 443 example_store))) = true.
Proof.
  apply (X16_compare_after_set_port example_store 0%nat 1%nat 443).
  - discriminate.
  - reflexivity.
  - lia.
  - vm_compute. repeat split; reflexivity.
Defined.

(** X17: [QuicAddrCompare] is true exactly when [QuicAddrGetFamily] agrees
    on the two addresses, [QuicAddrGetPort] agrees on them, and
    [QuicAddrCompareIp] is true. *)
Theorem X17_compare_by_accessors (s : store) (a b : ptr) :
  result (QuicAddrCompare a b s) = true
  <-> result (QuicAddrGetFamily a s) = result (QuicAddrGetFamily b s)
      /\ result (QuicAddrGetPort a s) = result (QuicAddrGetPort b s)
      /\ result (QuicAddrCompareIp a b s) = true.
Proof.
  rewrite QuicAddrCompare_split, !andb_true_iff, !Z.eqb_eq.
  rewrite !QuicAddrGetFamily_run, !QuicAddrGetPort_run.
  unfold result at 2 3 4 5. cbn [fst]. unfold uint16_t.
  rewrite !Z.mod_small by apply si_family_range.
  pose proof (sin_port_range (s a)) as Ha.
  pose proof (sin_port_range (s b)) as Hb.
  split.
  - intros [[Hf Hp] Hc]. rewrite Hp. auto.
  - intros (Hf & Hp & Hc). split; [split|]; auto.
    now apply QuicNetByteSwapShort_inj.
Qed.

(** ** What the helpers touch *)

Ltac each_access tac :=
  repeat (apply Forall_cons; [tac|]); apply Forall_nil.

Ltac a_read :=
  split; [exact I|];
  split; [cbv; lia|cbv [on_objects]; auto].

Ltac reads_only_run :=
  unfold reads_only, final, trace; cbn [fst snd app map seq Nat.add];
  split; [reflexivity|];
  split; [each_access a_read|cbn [length]; lia].

(** X18: the eight helpers that take [const] pointers only read: they hand
    the store back unchanged, every access is a read inside the 28 bytes
    of one of their arguments, and no run makes more than nineteen
    accesses. *)
Theorem X18_const_helpers_only_read (s : store) (a b : ptr) :
  reads_only a a s (QuicAddrIsValid a s)
  /\ reads_only a b s (QuicAddrCompareIp a b s)
  /\ reads_only a b s (QuicAddrCompare a b s)
  /\ reads_only a a s (QuicAddrIsWildCard a s)
  /\ reads_only a a s (QuicAddrGetFamily a s)
  /\ reads_only a a s (QuicAddrGetPort a s)
  /\ reads_only a a s (QuicAddrIsBoundExplicitly a s)
  /\ reads_only a a s (QuicAddrHash a s).
Proof.
  repeat match goal with |- _ /\ _ => split end.
  - unfold QuicAddrIsValid. run_M.
    destruct (_ =? AF_UNSPEC); [reads_only_run|].
    destruct (_ =? AF_INET); reads_only_run.
  - rewrite QuicAddrCompareIp_run.
    destruct (_ =? AF_INET); reads_only_run.
  - rewrite QuicAddrCompare_run.
    destruct (negb _); [reads_only_run|].
    destruct (negb _); [reads_only_run|].
    rewrite QuicAddrCompareIp_run.
    destruct (_ =? AF_INET); reads_only_run.
  - rewrite QuicAddrIsWildCard_run.
    destruct (_ =? AF_UNSPEC); [reads_only_run|].
    destruct (_ =? AF_INET); reads_only_run.
  - rewrite QuicAddrGetFamily_run. reads_only_run.
  - rewrite QuicAddrGetPort_run. reads_only_run.
  - rewrite QuicAddrIsBoundExplicitly_run. reads_only_run.
  - rewrite QuicAddrHash_run.
    destruct (si_family_of (s a) =? AF_INET); reads_only_run.
Qed.

Ltac an_access :=
  split; [cbv; lia|cbv [on_objects]; auto].

(** X19: the three helpers that write, [QuicAddrSetFamily],
    [QuicAddrSetPort] and [QuicAddrSetToLoopback], access only bytes inside
    the 28 bytes of their argument, keep the size of every object, and
    leave every other object as it was. *)
Theorem X19_writers_stay_inside (s : store) (a : ptr) (Family Port : Z) :
  writes_inside a s (QuicAddrSetFamily a Family s)
  /\ writes_inside a s (QuicAddrSetPort a Port s)
  /\ writes_inside a s (QuicAddrSetToLoopback a s).
Proof.
  split; [|split]; unfold writes_inside.
  - split; [|split].
    + rewrite QuicAddrSetFamily_run. unfold trace. cbn [snd].
      each_access an_access.
    + intros q. destruct (Nat.eq_dec q a) as [->|Hq].
      * rewrite QuicAddrSetFamily_run. unfold final. cbn [fst snd].
        rewrite set_object_same. apply length_poke_u16.
      * now rewrite SetFamily_others.
    + intros q Hq. now apply SetFamily_others.
  - split; [|split].
    + rewrite QuicAddrSetPort_run. unfold trace. cbn [snd].
      each_access an_access.
    + intros q. destruct (Nat.eq_dec q a) as [->|Hq].
      * rewrite QuicAddrSetPort_run. unfold final. cbn [fst snd].
        rewrite set_object_same. apply length_poke_u16.
      * now rewrite SetPort_others.
    + intros q Hq. now apply SetPort_others.
  - split; [|split].
    + rewrite QuicAddrSetToLoopback_run.
      destruct (_ =? AF_INET); unfold trace; cbn [snd];
        each_access an_access.
    + intros q. destruct (Nat.eq_dec q a) as [->|Hq].
      * rewrite QuicAddrSetToLoopback_object.
        destruct (_ =? AF_INET); now rewrite !length_poke.
      * now rewrite QuicAddrSetToLoopback_others.
    + intros q Hq. now apply QuicAddrSetToLoopback_others.
Qed.

(** The loopback write on object 0 leaves object 1 alone, and object 0
    keeps its 28 bytes. *)
Lemma X19_witness :
  final (QuicAddrSetToLoopback 0%nat example_store) 1%nat
  = example_store 1%nat.
Proof.
  apply (proj2 (proj2 (proj2 (proj2
           (X19_writers_stay_inside example_store 0%nat 0 0)))) 1%nat).
  discriminate.
Defined.

(** ** How the helpers compose *)

Lemma poke_out_of_range (m : image) (off : nat) (v : byte) :
  (length m <= off)%nat -> poke m off v = m.
Proof.
  revert off. induction m as [|b m IH]; intros [|k] H; cbn [poke length] in *;
    try reflexivity; try lia.
  f_equal. apply IH. lia.
Qed.

Lemma peek_poke (m : image) (off i : nat) (v : byte) :
  peek (poke m off v) i
  = if (Nat.eqb i off && Nat.ltb off (length m))%bool then v else peek m i.
Proof.
  destruct (Nat.eqb_spec i off) as [->|Hne]; cbn [andb].
  - destruct (Nat.ltb_spec off (length m)) as [Hlt|Hge].
    + now apply peek_poke_eq.
    + now rewrite poke_out_of_range.
  - now apply peek_poke_ne.
Qed.

Lemma image_ext (m m' : image) :
  length m = length m' -> (forall i, peek m i = peek m' i) -> m = m'.
Proof.
  intros Hlen H. apply (nth_ext m m' x00 x00 Hlen).
  intros n _. apply H.
Qed.

Ltac peek_cases :=
  intro; rewrite !peek_poke, !length_poke;
  repeat match goal with
         | |- context [Nat.eqb ?x ?y] => destruct (Nat.eqb_spec x y)
         end;
  cbn [andb]; try reflexivity; try lia.

Lemma poke_u16_comm (m : image) (i j : nat) (v w : Z) :
  (i + 2 <= j)%nat ->
  poke_bytes (poke_bytes m i (le_encode 2 v)) j (le_encode 2 w)
  = poke_bytes (poke_bytes m j (le_encode 2 w)) i (le_encode 2 v).
Proof.
  intros H. cbn [le_encode poke_bytes].
  apply image_ext; [now rewrite !length_poke|]. peek_cases.
Qed.

Lemma poke_u16_poke_comm (m : image) (i k : nat) (v : Z) (b : byte) :
  (i + 2 <= k)%nat ->
  poke_bytes (poke m k b) i (le_encode 2 v)
  = poke (poke_bytes m i (le_encode 2 v)) k b.
Proof.
  intros H. cbn [le_encode poke_bytes].
  apply image_ext; [now rewrite !length_poke|]. peek_cases.
Qed.

Lemma SetPort_object (a : ptr) (p : Z) (s : store) :
  final (QuicAddrSetPort a p s) a
  = poke_bytes (s a) 2 (le_encode 2 (QuicNetByteSwapShort p)).
Proof.
  rewrite QuicAddrSetPort_run. unfold final. cbn [fst snd].
  apply set_object_same.
Qed.

Lemma SetFamily_object (a : ptr) (f : Z) (s : store) :
  final (QuicAddrSetFamily a f s) a = poke_bytes (s a) 0 (le_encode 2 f).
Proof.
  rewrite QuicAddrSetFamily_run. unfold final. cbn [fst snd].
  apply set_object_same.
Qed.

(** X20: [QuicAddrSetPort] commutes with [QuicAddrSetFamily] and with
    [QuicAddrSetToLoopback] on the same object: either order leaves every
    object the same. *)
Theorem X20_set_port_commutes (s : store) (a q : ptr) (Port Family : Z) :
  final (QuicAddrSetPort a Port (final (QuicAddrSetFamily a Family s))) q
  = final (QuicAddrSetFamily a Family (final (QuicAddrSetPort a Port s))) q
  /\ final (QuicAddrSetPort a Port (final (QuicAddrSetToLoopback a s))) q
     = final (QuicAddrSetToLoopback a (final (QuicAddrSetPort a Port s))) q.
Proof.
  destruct (Nat.eq_dec q a) as [->|Hq].
  - split.
    + rewrite SetPort_object, SetFamily_object.
      rewrite SetFamily_object, SetPort_object.
      apply poke_u16_comm. lia.
    + rewrite SetPort_object, !QuicAddrSetToLoopback_object.
      rewrite SetPort_object.
      assert (Hf : si_family_of
                     (poke_bytes (s a) 2
                        (le_encode 2 (QuicNetByteSwapShort Port)))
                   = si_family_of (s a)).
      { unfold si_family_of, Layout.si_family.
        rewrite bytes_at_poke_u16_outside by lia. reflexivity. }
      rewrite Hf.
      destruct (si_family_of (s a) =? AF_INET).
      * rewrite !poke_u16_poke_comm by lia. reflexivity.
      * rewrite poke_u16_poke_comm by lia. reflexivity.
  - split.
    + rewrite SetPort_others, SetFamily_others by exact Hq.
      rewrite SetFamily_others, SetPort_others by exact Hq. reflexivity.
    + rewrite SetPort_others, QuicAddrSetToLoopback_others by exact Hq.
      rewrite QuicAddrSetToLoopback_others, SetPort_others by exact Hq.
      reflexivity.
Qed.

Lemma loopback_payload_congr (m m' : image) :
  is_QUIC_ADDR m -> is_QUIC_ADDR m' ->
  sin_addr_of m = sin_addr_of m' ->
  sin_addr_of (poke (poke m 4 (byte_of 127)) 7 (byte_of 1))
  = sin_addr_of (poke (poke m' 4 (byte_of 127)) 7 (byte_of 1)).
Proof.
  intros Hm Hm' H. rewrite !sin_addr_after_loopback by assumption.
  unfold sin_addr_of, bytes_at, Layout.Ipv4_sin_addr, Layout.sizeof_IN_ADDR
    in H.
  cbn [seq map] in H. injection H as _ H5 H6 _. now rewrite H5, H6.
Qed.

Lemma loopback_payload6_congr (m m' : image) :
  is_QUIC_ADDR m -> is_QUIC_ADDR m' ->
  sin6_addr_of m = sin6_addr_of m' ->
  sin6_addr_of (poke m 23 (byte_of 1)) = sin6_addr_of (poke m' 23 (byte_of 1)).
Proof.
  intros Hm Hm' H. rewrite !sin6_addr_after_loopback by assumption.
  unfold sin6_addr_of, Layout.Ipv6_sin6_addr, Layout.sizeof_IN6_ADDR in H.
  rewrite (bytes_at_snoc m 8 15), (bytes_at_snoc m' 8 15) in H.
  apply app_inj_tail in H.
  destruct H as [H _]. now rewrite H.
Qed.

Lemma loopback_key_congr (s s' : store) (a b : ptr) :
  is_QUIC_ADDR (s a) -> is_QUIC_ADDR (s' b) ->
  addr_key (s a) = addr_key (s' b) ->
  addr_key (final (QuicAddrSetToLoopback a s) a)
  = addr_key (final (QuicAddrSetToLoopback b s') b).
Proof.
  intros Ha Hb H. unfold addr_key in H. injection H as Hf Hp Hpl.
  assert (Hp' : forall (t : store) (c : ptr),
             sin_port_of (final (QuicAddrSetToLoopback c t) c)
             = sin_port_of (t c)).
  { intros t c. unfold sin_port_of, Layout.Ipv4_sin_port.
    rewrite loopback_object_frame by lia. reflexivity. }
  unfold addr_key, family_payload.
  rewrite !loopback_family, !Hp', <- Hf, Hp. f_equal.
  rewrite !QuicAddrSetToLoopback_object, <- Hf.
  unfold family_payload in Hpl. rewrite <- Hf in Hpl.
  destruct (si_family_of (s a) =? AF_INET).
  - now apply loopback_payload_congr.
  - now apply loopback_payload6_congr.
Qed.

(** X21: [QuicAddrSetToLoopback] respects equality: two distinct 28-byte
    objects that [QuicAddrCompare] finds equal are still equal after the
    call has been made on each of them. *)
Theorem X21_loopback_keeps_equality (s : store) (a b : ptr) :
  a <> b ->
  is_QUIC_ADDR (s a) ->
  is_QUIC_ADDR (s b) ->
  result (QuicAddrCompare a b s) = true ->
  result (QuicAddrCompare a b
            (final (QuicAddrSetToLoopback b
                      (final (QuicAddrSetToLoopback a s))))) = true.
Proof.
  intros Hab Ha Hb. rewrite !QuicAddrCompare_iff. intros H.
  rewrite (QuicAddrSetToLoopback_others b a) by exact Hab.
  assert (Hb1 : final (QuicAddrSetToLoopback a s) b = s b)
    by (apply QuicAddrSetToLoopback_others; congruence).
  apply loopback_key_congr; [exact Ha|now rewrite Hb1|].
  now rewrite Hb1.
Qed.

(** The clean and the dirty 192.168.1.1:443 both become 127.168.1.1:443. *)
Lemma X21_witness :
  result (QuicAddrCompare 0%nat 4%nat
            (final (QuicAddrSetToLoopback 4%nat
                      (final (QuicAddrSetToLoopback 0%nat example_store)))))
  = true.
Proof.
  apply (X21_loopback_keeps_equality example_store 0%nat 4%nat).
  - discriminate.
  - reflexivity.
  - reflexivity.
  - vm_compute. reflexivity.
Defined.

(** X22: addresses that [QuicAddrCompare] finds equal get the same answers
    from [QuicAddrIsValid], [QuicAddrIsWildCard], [QuicAddrGetFamily],
    [QuicAddrGetPort] and [QuicAddrHash]. *)
Theorem X22_equal_addresses_agree (s : store) (a b : ptr) :
  result (QuicAddrCompare a b s) = true ->
  result (QuicAddrIsValid a s) = result (QuicAddrIsValid b s)
  /\ result (QuicAddrIsWildCard a s) = result (QuicAddrIsWildCard b s)
  /\ result (QuicAddrGetFamily a s) = result (QuicAddrGetFamily b s)
  /\ result (QuicAddrGetPort a s) = result (QuicAddrGetPort b s)
  /\ result (QuicAddrHash a s) = result (QuicAddrHash b s).
Proof.
  intros H. apply QuicAddrCompare_true in H as (Hf & Hp & Hpl).
  split; [|split; [|split; [|split]]].
  - now apply QuicAddrIsValid_family.
  - rewrite !QuicAddrIsWildCard_run, <- Hf.
    unfold family_payload in Hpl. rewrite <- Hf in Hpl.
    destruct (si_family_of (s a) =? AF_UNSPEC); [reflexivity|].
    destruct (si_family_of (s a) =? AF_INET); unfold result; cbn [fst];
      now rewrite Hpl.
  - rewrite !QuicAddrGetFamily_run, Hf. reflexivity.
  - rewrite !QuicAddrGetPort_run, Hp. reflexivity.
  - now apply QuicAddrHash_depends.
Qed.

(** The clean and the dirty 192.168.1.1:443. *)
Lemma X22_witness :
  result (QuicAddrGetPort 0%nat example_store)
  = result (QuicAddrGetPort 4%nat example_store).
Proof.
  apply (X22_equal_addresses_agree example_store 0%nat 4%nat).
  vm_compute. reflexivity.
Defined.
